(** * Ethereal: per-thread search state (thread.c) and mapped files (misc.c)

    A shallow embedding of the two translation units

      - [thread.c]: creation, reset, release and search-start initialisation
        of the thread pool, and the node / tablebase-hit aggregators;
      - [misc.c]: mapping, unmapping and sizing of read-only files
        ([open_file] and [close_file] only forward to the system and are
        left out).

    C statements become computations in a state-and-failure monad over an
    explicit machine state.  Pointers are addresses in [Z]; objects that the
    code reaches through a pointer (the [Thread] array returned by [calloc],
    the 64-byte aligned [NNUEStack] blocks) live in finite maps keyed by
    their base address, so that aliasing and invalid accesses are visible.
    The headers [thread.h], [types.h], [board.h], ... are not part of the
    two units; what the code needs from them (constants, macros, object
    sizes and member offsets) is collected in the class [Config]. *)

From stdpp Require Import base numbers list gmap.

Open Scope Z_scope.

(** ** Machine integers *)

(** [uint64_t] arithmetic wraps modulo [2^64]. *)
Definition uint64 (x : Z) : Z := x mod 2 ^ 64.

(** [int] is a 32-bit two's complement integer. *)
Definition sint32 (x : Z) : Z := (x + 2 ^ 31) mod 2 ^ 32 - 2 ^ 31.

Definition int_add (x y : Z) : Z := sint32 (x + y).
Definition int_neg (x : Z) : Z := sint32 (- x).

Definition NULL : Z := 0.
Definition EXIT_FAILURE : Z := 1.
Definition ENOMEM : Z := 12.

(** ** What the headers provide *)

Class Config := {
  (** [types.h]: colours and the packed middlegame/endgame score. *)
  BLACK : Z;
  MakeScore : Z → Z → Z;
  ScoreMG : Z → Z;
  ScoreEG : Z → Z;
  (** [thread.h]: capacity of the per-ply stacks and the number of slots
      kept in front of the root. *)
  STACK_OFFSET : Z;
  STACK_SIZE : Z;
  (** Layout of [Thread]: its size, the offsets of the three embedded
      stacks and the sizes of their elements. *)
  sizeof_Thread : Z;
  offsetof__evalStack : Z;
  offsetof__moveStack : Z;
  offsetof__pieceStack : Z;
  sizeof_evalStack_elt : Z;
  sizeof_moveStack_elt : Z;
  sizeof_pieceStack_elt : Z;
  (** Layout of [NNUEStack]: its size and the offset, inside it, of
      [accumulator.accumulation]. *)
  sizeof_NNUEStack : Z;
  offsetof_accumulation : Z;
  (** Sizes in bytes of the remaining members of [Board] and of the
      per-thread tables. *)
  sizeof_Board_rest : nat;
  sizeof_EvalTable : nat;
  sizeof_PKTable : nat;
  sizeof_KillerTable : nat;
  sizeof_CounterMoveTable : nat;
  sizeof_HistoryTable : nat;
  sizeof_CaptureHistoryTable : nat;
  sizeof_ContinuationTable : nat;
}.

(** ** Data *)

(** [Accumulator]: the vector the NNUE code reads with aligned loads, and
    the flag telling whether it is up to date. *)
Record Accumulator := {
  accumulation : list Z;
  computedAccumulation : Z;
}.

(** [NNUEStack]: one accumulator frame; [nnue_rest] stands for the members
    that [thread.c] never names. *)
Record NNUEStack := {
  accumulator : Accumulator;
  nnue_rest : list Z;
}.

(** [Board]: side to move, the pointer to the current accumulator frame,
    and the bytes of every other member. *)
Record Board := {
  turn : Z;
  st : Z;
  board_rest : list Z;
}.

(** [Thread], restricted to the members [thread.c] touches.  Tables are
    kept as their bytes. *)
Record Thread := {
  limits : Z;
  info : Z;
  board : Board;
  contempt : Z;
  height : Z;
  nodes : Z;
  tbhits : Z;
  evalStack : Z;
  _evalStack : list Z;
  moveStack : Z;
  _moveStack : list Z;
  pieceStack : Z;
  _pieceStack : list Z;
  nnueStack : Z;
  _nnueStack : Z;
  evtable : list Z;
  pktable : list Z;
  killers : list Z;
  cmtable : list Z;
  history : list Z;
  chistory : list Z;
  continuation : list Z;
  index : Z;
  nthreads : Z;
  threads : Z;
}.

(** Assignments to a single member. *)

Definition set_computedAccumulation (v : Z) (f : NNUEStack) : NNUEStack :=
  {| accumulator := {| accumulation := accumulation (accumulator f);
                       computedAccumulation := v |};
     nnue_rest := nnue_rest f |}.

Definition set_st (v : Z) (b : Board) : Board :=
  {| turn := turn b; st := v; board_rest := board_rest b |}.

Definition set_limits (v : Z) (t : Thread) : Thread :=
  {| limits := v; info := info t; board := board t; contempt := contempt t; height := height t;
     nodes := nodes t; tbhits := tbhits t; evalStack := evalStack t;
     _evalStack := _evalStack t; moveStack := moveStack t; _moveStack := _moveStack t;
     pieceStack := pieceStack t; _pieceStack := _pieceStack t; nnueStack := nnueStack t;
     _nnueStack := _nnueStack t; evtable := evtable t; pktable := pktable t;
     killers := killers t; cmtable := cmtable t; history := history t; chistory := chistory t;
     continuation := continuation t; index := index t; nthreads := nthreads t;
     threads := threads t |}.
Definition set_info (v : Z) (t : Thread) : Thread :=
  {| limits := limits t; info := v; board := board t; contempt := contempt t;
     height := height t; nodes := nodes t; tbhits := tbhits t; evalStack := evalStack t;
     _evalStack := _evalStack t; moveStack := moveStack t; _moveStack := _moveStack t;
     pieceStack := pieceStack t; _pieceStack := _pieceStack t; nnueStack := nnueStack t;
     _nnueStack := _nnueStack t; evtable := evtable t; pktable := pktable t;
     killers := killers t; cmtable := cmtable t; history := history t; chistory := chistory t;
     continuation := continuation t; index := index t; nthreads := nthreads t;
     threads := threads t |}.
Definition set_board (v : Board) (t : Thread) : Thread :=
  {| limits := limits t; info := info t; board := v; contempt := contempt t;
     height := height t; nodes := nodes t; tbhits := tbhits t; evalStack := evalStack t;
     _evalStack := _evalStack t; moveStack := moveStack t; _moveStack := _moveStack t;
     pieceStack := pieceStack t; _pieceStack := _pieceStack t; nnueStack := nnueStack t;
     _nnueStack := _nnueStack t; evtable := evtable t; pktable := pktable t;
     killers := killers t; cmtable := cmtable t; history := history t; chistory := chistory t;
     continuation := continuation t; index := index t; nthreads := nthreads t;
     threads := threads t |}.
Definition set_contempt (v : Z) (t : Thread) : Thread :=
  {| limits := limits t; info := info t; board := board t; contempt := v; height := height t;
     nodes := nodes t; tbhits := tbhits t; evalStack := evalStack t;
     _evalStack := _evalStack t; moveStack := moveStack t; _moveStack := _moveStack t;
     pieceStack := pieceStack t; _pieceStack := _pieceStack t; nnueStack := nnueStack t;
     _nnueStack := _nnueStack t; evtable := evtable t; pktable := pktable t;
     killers := killers t; cmtable := cmtable t; history := history t; chistory := chistory t;
     continuation := continuation t; index := index t; nthreads := nthreads t;
     threads := threads t |}.
Definition set_height (v : Z) (t : Thread) : Thread :=
  {| limits := limits t; info := info t; board := board t; contempt := contempt t; height := v;
     nodes := nodes t; tbhits := tbhits t; evalStack := evalStack t;
     _evalStack := _evalStack t; moveStack := moveStack t; _moveStack := _moveStack t;
     pieceStack := pieceStack t; _pieceStack := _pieceStack t; nnueStack := nnueStack t;
     _nnueStack := _nnueStack t; evtable := evtable t; pktable := pktable t;
     killers := killers t; cmtable := cmtable t; history := history t; chistory := chistory t;
     continuation := continuation t; index := index t; nthreads := nthreads t;
     threads := threads t |}.
Definition set_nodes (v : Z) (t : Thread) : Thread :=
  {| limits := limits t; info := info t; board := board t; contempt := contempt t;
     height := height t; nodes := v; tbhits := tbhits t; evalStack := evalStack t;
     _evalStack := _evalStack t; moveStack := moveStack t; _moveStack := _moveStack t;
     pieceStack := pieceStack t; _pieceStack := _pieceStack t; nnueStack := nnueStack t;
     _nnueStack := _nnueStack t; evtable := evtable t; pktable := pktable t;
     killers := killers t; cmtable := cmtable t; history := history t; chistory := chistory t;
     continuation := continuation t; index := index t; nthreads := nthreads t;
     threads := threads t |}.
Definition set_tbhits (v : Z) (t : Thread) : Thread :=
  {| limits := limits t; info := info t; board := board t; contempt := contempt t;
     height := height t; nodes := nodes t; tbhits := v; evalStack := evalStack t;
     _evalStack := _evalStack t; moveStack := moveStack t; _moveStack := _moveStack t;
     pieceStack := pieceStack t; _pieceStack := _pieceStack t; nnueStack := nnueStack t;
     _nnueStack := _nnueStack t; evtable := evtable t; pktable := pktable t;
     killers := killers t; cmtable := cmtable t; history := history t; chistory := chistory t;
     continuation := continuation t; index := index t; nthreads := nthreads t;
     threads := threads t |}.
Definition set_evalStack (v : Z) (t : Thread) : Thread :=
  {| limits := limits t; info := info t; board := board t; contempt := contempt t;
     height := height t; nodes := nodes t; tbhits := tbhits t; evalStack := v;
     _evalStack := _evalStack t; moveStack := moveStack t; _moveStack := _moveStack t;
     pieceStack := pieceStack t; _pieceStack := _pieceStack t; nnueStack := nnueStack t;
     _nnueStack := _nnueStack t; evtable := evtable t; pktable := pktable t;
     killers := killers t; cmtable := cmtable t; history := history t; chistory := chistory t;
     continuation := continuation t; index := index t; nthreads := nthreads t;
     threads := threads t |}.
Definition set_moveStack (v : Z) (t : Thread) : Thread :=
  {| limits := limits t; info := info t; board := board t; contempt := contempt t;
     height := height t; nodes := nodes t; tbhits := tbhits t; evalStack := evalStack t;
     _evalStack := _evalStack t; moveStack := v; _moveStack := _moveStack t;
     pieceStack := pieceStack t; _pieceStack := _pieceStack t; nnueStack := nnueStack t;
     _nnueStack := _nnueStack t; evtable := evtable t; pktable := pktable t;
     killers := killers t; cmtable := cmtable t; history := history t; chistory := chistory t;
     continuation := continuation t; index := index t; nthreads := nthreads t;
     threads := threads t |}.
Definition set_pieceStack (v : Z) (t : Thread) : Thread :=
  {| limits := limits t; info := info t; board := board t; contempt := contempt t;
     height := height t; nodes := nodes t; tbhits := tbhits t; evalStack := evalStack t;
     _evalStack := _evalStack t; moveStack := moveStack t; _moveStack := _moveStack t;
     pieceStack := v; _pieceStack := _pieceStack t; nnueStack := nnueStack t;
     _nnueStack := _nnueStack t; evtable := evtable t; pktable := pktable t;
     killers := killers t; cmtable := cmtable t; history := history t; chistory := chistory t;
     continuation := continuation t; index := index t; nthreads := nthreads t;
     threads := threads t |}.
Definition set_nnueStack (v : Z) (t : Thread) : Thread :=
  {| limits := limits t; info := info t; board := board t; contempt := contempt t;
     height := height t; nodes := nodes t; tbhits := tbhits t; evalStack := evalStack t;
     _evalStack := _evalStack t; moveStack := moveStack t; _moveStack := _moveStack t;
     pieceStack := pieceStack t; _pieceStack := _pieceStack t; nnueStack := v;
     _nnueStack := _nnueStack t; evtable := evtable t; pktable := pktable t;
     killers := killers t; cmtable := cmtable t; history := history t; chistory := chistory t;
     continuation := continuation t; index := index t; nthreads := nthreads t;
     threads := threads t |}.
Definition set__nnueStack (v : Z) (t : Thread) : Thread :=
  {| limits := limits t; info := info t; board := board t; contempt := contempt t;
     height := height t; nodes := nodes t; tbhits := tbhits t; evalStack := evalStack t;
     _evalStack := _evalStack t; moveStack := moveStack t; _moveStack := _moveStack t;
     pieceStack := pieceStack t; _pieceStack := _pieceStack t; nnueStack := nnueStack t;
     _nnueStack := v; evtable := evtable t; pktable := pktable t; killers := killers t;
     cmtable := cmtable t; history := history t; chistory := chistory t;
     continuation := continuation t; index := index t; nthreads := nthreads t;
     threads := threads t |}.
Definition set_evtable (v : list Z) (t : Thread) : Thread :=
  {| limits := limits t; info := info t; board := board t; contempt := contempt t;
     height := height t; nodes := nodes t; tbhits := tbhits t; evalStack := evalStack t;
     _evalStack := _evalStack t; moveStack := moveStack t; _moveStack := _moveStack t;
     pieceStack := pieceStack t; _pieceStack := _pieceStack t; nnueStack := nnueStack t;
     _nnueStack := _nnueStack t; evtable := v; pktable := pktable t; killers := killers t;
     cmtable := cmtable t; history := history t; chistory := chistory t;
     continuation := continuation t; index := index t; nthreads := nthreads t;
     threads := threads t |}.
Definition set_pktable (v : list Z) (t : Thread) : Thread :=
  {| limits := limits t; info := info t; board := board t; contempt := contempt t;
     height := height t; nodes := nodes t; tbhits := tbhits t; evalStack := evalStack t;
     _evalStack := _evalStack t; moveStack := moveStack t; _moveStack := _moveStack t;
     pieceStack := pieceStack t; _pieceStack := _pieceStack t; nnueStack := nnueStack t;
     _nnueStack := _nnueStack t; evtable := evtable t; pktable := v; killers := killers t;
     cmtable := cmtable t; history := history t; chistory := chistory t;
     continuation := continuation t; index := index t; nthreads := nthreads t;
     threads := threads t |}.
Definition set_killers (v : list Z) (t : Thread) : Thread :=
  {| limits := limits t; info := info t; board := board t; contempt := contempt t;
     height := height t; nodes := nodes t; tbhits := tbhits t; evalStack := evalStack t;
     _evalStack := _evalStack t; moveStack := moveStack t; _moveStack := _moveStack t;
     pieceStack := pieceStack t; _pieceStack := _pieceStack t; nnueStack := nnueStack t;
     _nnueStack := _nnueStack t; evtable := evtable t; pktable := pktable t; killers := v;
     cmtable := cmtable t; history := history t; chistory := chistory t;
     continuation := continuation t; index := index t; nthreads := nthreads t;
     threads := threads t |}.
Definition set_cmtable (v : list Z) (t : Thread) : Thread :=
  {| limits := limits t; info := info t; board := board t; contempt := contempt t;
     height := height t; nodes := nodes t; tbhits := tbhits t; evalStack := evalStack t;
     _evalStack := _evalStack t; moveStack := moveStack t; _moveStack := _moveStack t;
     pieceStack := pieceStack t; _pieceStack := _pieceStack t; nnueStack := nnueStack t;
     _nnueStack := _nnueStack t; evtable := evtable t; pktable := pktable t;
     killers := killers t; cmtable := v; history := history t; chistory := chistory t;
     continuation := continuation t; index := index t; nthreads := nthreads t;
     threads := threads t |}.
Definition set_history (v : list Z) (t : Thread) : Thread :=
  {| limits := limits t; info := info t; board := board t; contempt := contempt t;
     height := height t; nodes := nodes t; tbhits := tbhits t; evalStack := evalStack t;
     _evalStack := _evalStack t; moveStack := moveStack t; _moveStack := _moveStack t;
     pieceStack := pieceStack t; _pieceStack := _pieceStack t; nnueStack := nnueStack t;
     _nnueStack := _nnueStack t; evtable := evtable t; pktable := pktable t;
     killers := killers t; cmtable := cmtable t; history := v; chistory := chistory t;
     continuation := continuation t; index := index t; nthreads := nthreads t;
     threads := threads t |}.
Definition set_chistory (v : list Z) (t : Thread) : Thread :=
  {| limits := limits t; info := info t; board := board t; contempt := contempt t;
     height := height t; nodes := nodes t; tbhits := tbhits t; evalStack := evalStack t;
     _evalStack := _evalStack t; moveStack := moveStack t; _moveStack := _moveStack t;
     pieceStack := pieceStack t; _pieceStack := _pieceStack t; nnueStack := nnueStack t;
     _nnueStack := _nnueStack t; evtable := evtable t; pktable := pktable t;
     killers := killers t; cmtable := cmtable t; history := history t; chistory := v;
     continuation := continuation t; index := index t; nthreads := nthreads t;
     threads := threads t |}.
Definition set_continuation (v : list Z) (t : Thread) : Thread :=
  {| limits := limits t; info := info t; board := board t; contempt := contempt t;
     height := height t; nodes := nodes t; tbhits := tbhits t; evalStack := evalStack t;
     _evalStack := _evalStack t; moveStack := moveStack t; _moveStack := _moveStack t;
     pieceStack := pieceStack t; _pieceStack := _pieceStack t; nnueStack := nnueStack t;
     _nnueStack := _nnueStack t; evtable := evtable t; pktable := pktable t;
     killers := killers t; cmtable := cmtable t; history := history t; chistory := chistory t;
     continuation := v; index := index t; nthreads := nthreads t; threads := threads t |}.
Definition set_index (v : Z) (t : Thread) : Thread :=
  {| limits := limits t; info := info t; board := board t; contempt := contempt t;
     height := height t; nodes := nodes t; tbhits := tbhits t; evalStack := evalStack t;
     _evalStack := _evalStack t; moveStack := moveStack t; _moveStack := _moveStack t;
     pieceStack := pieceStack t; _pieceStack := _pieceStack t; nnueStack := nnueStack t;
     _nnueStack := _nnueStack t; evtable := evtable t; pktable := pktable t;
     killers := killers t; cmtable := cmtable t; history := history t; chistory := chistory t;
     continuation := continuation t; index := v; nthreads := nthreads t;
     threads := threads t |}.
Definition set_nthreads (v : Z) (t : Thread) : Thread :=
  {| limits := limits t; info := info t; board := board t; contempt := contempt t;
     height := height t; nodes := nodes t; tbhits := tbhits t; evalStack := evalStack t;
     _evalStack := _evalStack t; moveStack := moveStack t; _moveStack := _moveStack t;
     pieceStack := pieceStack t; _pieceStack := _pieceStack t; nnueStack := nnueStack t;
     _nnueStack := _nnueStack t; evtable := evtable t; pktable := pktable t;
     killers := killers t; cmtable := cmtable t; history := history t; chistory := chistory t;
     continuation := continuation t; index := index t; nthreads := v; threads := threads t |}.
Definition set_threads (v : Z) (t : Thread) : Thread :=
  {| limits := limits t; info := info t; board := board t; contempt := contempt t;
     height := height t; nodes := nodes t; tbhits := tbhits t; evalStack := evalStack t;
     _evalStack := _evalStack t; moveStack := moveStack t; _moveStack := _moveStack t;
     pieceStack := pieceStack t; _pieceStack := _pieceStack t; nnueStack := nnueStack t;
     _nnueStack := _nnueStack t; evtable := evtable t; pktable := pktable t;
     killers := killers t; cmtable := cmtable t; history := history t; chistory := chistory t;
     continuation := continuation t; index := index t; nthreads := nthreads t; threads := v |}.

Definition set_board_st (v : Z) (t : Thread) : Thread :=
  set_board (set_st v (board t)) t.

(** [memset(&x, 0, sizeof x)] on an object kept as its bytes. *)
Definition memset_zero (x : list Z) : list Z := replicate (length x) 0.

(** ** The monad of C computations

    A computation either returns normally with a value and a new state,
    leaves the process through [exit], or performs an invalid access
    (undefined behaviour, reported as [Fault]). *)

Inductive outcome (St A : Type) : Type :=
  | Done (a : A) (s : St)
  | Exit (code : Z)
  | Fault.
Arguments Done {St A} a s.
Arguments Exit {St A} code.
Arguments Fault {St A}.

Definition M (St A : Type) : Type := St → outcome St A.

#[global] Instance M_ret {St} : MRet (M St) := λ A a s, Done a s.

#[global] Instance M_bind {St} : MBind (M St) := λ A B k c s,
  match c s with
  | Done a s' => k a s'
  | Exit code => Exit code
  | Fault => Fault
  end.

#[global] Instance M_fmap {St} : FMap (M St) := λ A B f c s,
  match c s with
  | Done a s' => Done (f a) s'
  | Exit code => Exit code
  | Fault => Fault
  end.

Definition exit {St A} (code : Z) : M St A := λ _, Exit code.
Definition fault {St A} : M St A := λ _, Fault.
Definition gets {St A} (f : St → A) : M St A := λ s, Done (f s) s.
Definition modify {St} (f : St → St) : M St unit := λ s, Done tt (f s).

(** [for (i = from; i < from + count; i++) acc = body(i, acc);] *)
Fixpoint fold_from {St A} (i : Z) (count : nat) (body : Z → A → M St A) (acc : A) : M St A :=
  match count with
  | O => mret acc
  | S c => acc' ← body i acc; fold_from (i + 1) c body acc'
  end.

(** [for (int i = 0; i < n; i++) body(i);] with [n] fixed during the loop. *)
Definition for_loop {St} (n : Z) (body : Z → M St unit) : M St unit :=
  fold_from 0 (Z.to_nat n) (λ i _, body i) tt.

(** ** The machine state of [thread.c] *)

Record Machine := {
  (** The two globals set through UCI options. *)
  ContemptDrawPenalty : Z;
  ContemptComplexity : Z;
  (** Arrays of [Thread] obtained from [calloc], by base address. *)
  thread_arrays : gmap Z (list Thread);
  (** Arrays of [NNUEStack] obtained from [ethereal_alloc], by base address. *)
  nnue_blocks : gmap Z (list NNUEStack);
  (** The addresses the C library returns to the next allocation requests
      ([NULL], or none left: the request fails), and what the memory at an
      address holds before it is first written. *)
  allocator : list Z;
  junk : Z → NNUEStack;
}.

Definition set_thread_arrays (v : gmap Z (list Thread)) (m : Machine) : Machine :=
  {| ContemptDrawPenalty := ContemptDrawPenalty m; ContemptComplexity := ContemptComplexity m;
     thread_arrays := v; nnue_blocks := nnue_blocks m;
     allocator := allocator m; junk := junk m |}.

Definition set_nnue_blocks (v : gmap Z (list NNUEStack)) (m : Machine) : Machine :=
  {| ContemptDrawPenalty := ContemptDrawPenalty m; ContemptComplexity := ContemptComplexity m;
     thread_arrays := thread_arrays m; nnue_blocks := v;
     allocator := allocator m; junk := junk m |}.

Definition set_allocator (v : list Z) (m : Machine) : Machine :=
  {| ContemptDrawPenalty := ContemptDrawPenalty m; ContemptComplexity := ContemptComplexity m;
     thread_arrays := thread_arrays m; nnue_blocks := nnue_blocks m;
     allocator := v; junk := junk m |}.

(** Replacing the array at [threads], or the block at [base]. *)
Definition put_pool (threads : Z) (arr : list Thread) (m : Machine) : Machine :=
  set_thread_arrays (<[threads := arr]> (thread_arrays m)) m.

Definition put_block (base : Z) (frames : list NNUEStack) (m : Machine) : Machine :=
  set_nnue_blocks (<[base := frames]> (nnue_blocks m)) m.

(** [threads[i]] as an rvalue. *)
Definition load_thread (threads i : Z) : M Machine Thread := λ m,
  match thread_arrays m !! threads with
  | Some arr =>
      if bool_decide (0 ≤ i) then
        match arr !! Z.to_nat i with
        | Some t => Done t m
        | None => Fault
        end
      else Fault
  | None => Fault
  end.

(** [threads[i].member = v], given as the update of the record. *)
Definition store_thread (threads i : Z) (f : Thread → Thread) : M Machine unit := λ m,
  match thread_arrays m !! threads with
  | Some arr =>
      if bool_decide (0 ≤ i) then
        match arr !! Z.to_nat i with
        | Some t => Done tt (put_pool threads (<[Z.to_nat i := f t]> arr) m)
        | None => Fault
        end
      else Fault
  | None => Fault
  end.

(** [base[j].member = v] on an array of [NNUEStack]. *)
Definition store_frame (base j : Z) (f : NNUEStack → NNUEStack) : M Machine unit := λ m,
  match nnue_blocks m !! base with
  | Some frames =>
      if bool_decide (0 ≤ j) then
        match frames !! Z.to_nat j with
        | Some fr => Done tt (put_block base (<[Z.to_nat j := f fr]> frames) m)
        | None => Fault
        end
      else Fault
  | None => Fault
  end.

(** The next decision of the allocator. *)
Definition next_address : M Machine Z := λ m,
  Done (default NULL (head (allocator m))) (set_allocator (tail (allocator m)) m).

Section thread_c.
Context {cfg : Config}.

(** A [Board] and a [Thread] whose bytes are all zero. *)
Definition Board_zero : Board :=
  {| turn := 0; st := NULL; board_rest := replicate sizeof_Board_rest 0 |}.

Definition Thread_zero : Thread :=
  {| limits := NULL; info := NULL; board := Board_zero; contempt := 0; height := 0;
     nodes := 0; tbhits := 0;
     evalStack := NULL; _evalStack := replicate (Z.to_nat STACK_SIZE) 0;
     moveStack := NULL; _moveStack := replicate (Z.to_nat STACK_SIZE) 0;
     pieceStack := NULL; _pieceStack := replicate (Z.to_nat STACK_SIZE) 0;
     nnueStack := NULL; _nnueStack := NULL;
     evtable := replicate sizeof_EvalTable 0; pktable := replicate sizeof_PKTable 0;
     killers := replicate sizeof_KillerTable 0; cmtable := replicate sizeof_CounterMoveTable 0;
     history := replicate sizeof_HistoryTable 0; chistory := replicate sizeof_CaptureHistoryTable 0;
     continuation := replicate sizeof_ContinuationTable 0;
     index := 0; nthreads := 0; threads := NULL |}.

(** [calloc(nmemb, sizeof(Thread))]; a negative [int] count converts to a
    [size_t] too large to be served. *)
Definition calloc (nmemb : Z) : M Machine Z :=
  a ← next_address;
  if bool_decide (a = NULL ∨ nmemb < 0) then mret NULL
  else
    modify (put_pool a (replicate (Z.to_nat nmemb) Thread_zero));;
    mret a.

(** The frames of a block of [size] bytes at [base] that was never
    written. *)
Definition fresh_block (junk : Z → NNUEStack) (base size : Z) : list NNUEStack :=
  (λ j, junk (base + j * sizeof_NNUEStack)) <$> seqZ 0 (size `div` sizeof_NNUEStack).

(** [posix_memalign(&mem, alignment, size)]: the return code and the value
    left in [mem].  The block is not initialised. *)
Definition posix_memalign (alignment size : Z) : M Machine (Z * Z) :=
  a ← next_address;
  if bool_decide (a = NULL) then mret (ENOMEM, NULL)
  else
    modify (λ m, put_block a (fresh_block (junk m) a size) m);;
    mret (0, a).

(** [free(ptr)]: nothing for [NULL]; invalid for an address that is not the
    base of a live object. *)
Definition free (p : Z) : M Machine unit := λ m,
  if bool_decide (p = NULL) then Done tt m
  else match thread_arrays m !! p, nnue_blocks m !! p with
       | Some _, _ => Done tt (set_thread_arrays (delete p (thread_arrays m)) m)
       | None, Some _ => Done tt (set_nnue_blocks (delete p (nnue_blocks m)) m)
       | None, None => Fault
       end.

(** *** thread.c

    The loops over the pool run up to [threads->nthreads]; no loop body
    writes that member, so the bound is read once, before the loop.  The
    line that [createThreadPool] prints before [exit] is not modelled. *)

Definition ethereal_alloc (size alignment : Z) : M Machine Z :=
  '(rc, mem) ← posix_memalign alignment size;
  mret (if bool_decide (rc ≠ 0) then NULL else mem).

Definition ethereal_free (p : Z) : M Machine unit := free p.

(** Addresses of [threads[i]._evalStack[j]] and its siblings, and of
    [base[j].accumulator.accumulation]. *)
Definition addr_Thread (threads i : Z) : Z := threads + i * sizeof_Thread.
Definition addr__evalStack (threads i j : Z) : Z :=
  addr_Thread threads i + offsetof__evalStack + j * sizeof_evalStack_elt.
Definition addr__moveStack (threads i j : Z) : Z :=
  addr_Thread threads i + offsetof__moveStack + j * sizeof_moveStack_elt.
Definition addr__pieceStack (threads i j : Z) : Z :=
  addr_Thread threads i + offsetof__pieceStack + j * sizeof_pieceStack_elt.
Definition addr__nnueStack (base j : Z) : Z := base + j * sizeof_NNUEStack.
Definition addr_accumulation (base j : Z) : Z :=
  addr__nnueStack base j + offsetof_accumulation.

Definition createThreadPool (nthreads : Z) : M Machine Z :=
  threads ← calloc nthreads;
  for_loop nthreads (λ i,
    (* Offset stacks so the root position may look backwards *)
    store_thread threads i (set_evalStack (addr__evalStack threads i STACK_OFFSET));;
    store_thread threads i (set_moveStack (addr__moveStack threads i STACK_OFFSET));;
    store_thread threads i (set_pieceStack (addr__pieceStack threads i STACK_OFFSET));;
    base0 ← _nnueStack <$> load_thread threads i;
    store_thread threads i (set_nnueStack (addr__nnueStack base0 STACK_OFFSET));;
    (* Threads will know of each other *)
    store_thread threads i (set_index i);;
    store_thread threads i (set_threads threads);;
    store_thread threads i (set_nthreads nthreads);;
    (* The NNUE Accumulators must be aligned on 64-byte boundries *)
    mem ← ethereal_alloc (sizeof_NNUEStack * STACK_SIZE) 64;
    store_thread threads i (set__nnueStack mem);;
    base ← _nnueStack <$> load_thread threads i;
    store_thread threads i (set_nnueStack (addr__nnueStack base STACK_OFFSET));;
    for_loop STACK_SIZE (λ j,
      base ← _nnueStack <$> load_thread threads i;
      if bool_decide (addr_accumulation base j `mod` 64 ≠ 0)
      then exit EXIT_FAILURE
      else mret tt));;
  mret threads.

Definition resetThreadPool (threads : Z) : M Machine unit :=
  n ← nthreads <$> load_thread threads 0;
  for_loop n (λ i,
    store_thread threads i (λ t, set_evtable (memset_zero (evtable t)) t);;
    store_thread threads i (λ t, set_pktable (memset_zero (pktable t)) t);;
    store_thread threads i (λ t, set_killers (memset_zero (killers t)) t);;
    store_thread threads i (λ t, set_cmtable (memset_zero (cmtable t)) t);;
    store_thread threads i (λ t, set_history (memset_zero (history t)) t);;
    store_thread threads i (λ t, set_chistory (memset_zero (chistory t)) t);;
    store_thread threads i (λ t, set_continuation (memset_zero (continuation t)) t)).

Definition deleteThreadPool (threads : Z) : M Machine unit :=
  n ← nthreads <$> load_thread threads 0;
  for_loop n (λ i,
    base ← _nnueStack <$> load_thread threads i;
    ethereal_free base);;
  free threads.

Definition newSearchThreadPool (threads : Z) (b : Board) (lim inf : Z) : M Machine unit :=
  dp ← gets ContemptDrawPenalty;
  cc ← gets ContemptComplexity;
  let c := MakeScore (int_add dp cc) dp in
  let c := if bool_decide (turn b = BLACK) then int_neg c else c in
  n ← nthreads <$> load_thread threads 0;
  for_loop n (λ i,
    store_thread threads i (set_limits lim);;
    store_thread threads i (set_info inf);;
    store_thread threads i (set_contempt c);;
    store_thread threads i (set_height 0);;
    store_thread threads i (set_nodes 0);;
    store_thread threads i (set_tbhits 0);;
    store_thread threads i (set_board b);;
    top ← nnueStack <$> load_thread threads i;
    store_thread threads i (set_board_st top);;
    for_loop STACK_SIZE (λ j,
      base ← _nnueStack <$> load_thread threads i;
      store_frame base j (set_computedAccumulation 0))).

Definition nodesSearchedThreadPool (threads : Z) : M Machine Z :=
  n ← nthreads <$> load_thread threads 0;
  fold_from 0 (Z.to_nat n) (λ i acc,
    t ← load_thread threads i;
    mret (uint64 (acc + nodes t))) 0.

Definition tbhitsThreadPool (threads : Z) : M Machine Z :=
  n ← nthreads <$> load_thread threads 0;
  fold_from 0 (Z.to_nat n) (λ i acc,
    t ← load_thread threads i;
    mret (uint64 (acc + tbhits t))) 0.

End thread_c.

(** ** misc.c

    The unit is compiled either for POSIX or, with [_WIN32] defined, for
    Windows; [target] selects the branch of each [#ifndef _WIN32]. *)

Inductive target := POSIX | WIN32.

(** The part of the operating system the unit talks to. *)
Record OS := {
  (** Open descriptors (POSIX) or file handles (Windows), with the bytes of
      the file each one is open on. *)
  open_files : gmap Z (list Z);
  (** Regions mapped into the address space, by base address. *)
  views : gmap Z (list Z);
  (** Windows file-mapping objects, by handle. *)
  mapping_objects : gmap Z (list Z);
  (** The addresses and handles the kernel picks for the next requests
      (zero, or none left: the request is refused). *)
  kernel : list Z;
  (** What an uninitialised local variable happens to hold. *)
  uninitialised : Z;
}.

Definition set_views (v : gmap Z (list Z)) (s : OS) : OS :=
  {| open_files := open_files s; views := v; mapping_objects := mapping_objects s;
     kernel := kernel s; uninitialised := uninitialised s |}.

Definition set_mapping_objects (v : gmap Z (list Z)) (s : OS) : OS :=
  {| open_files := open_files s; views := views s; mapping_objects := v;
     kernel := kernel s; uninitialised := uninitialised s |}.

Definition set_kernel (v : list Z) (s : OS) : OS :=
  {| open_files := open_files s; views := views s; mapping_objects := mapping_objects s;
     kernel := v; uninitialised := uninitialised s |}.

Definition MAP_FAILED : Z := -1.
Definition INVALID_FILE_SIZE : Z := 2 ^ 32 - 1.

Definition kernel_pick : M OS Z := λ s,
  Done (default 0 (head (kernel s))) (set_kernel (tail (kernel s)) s).

(** *** POSIX calls *)

(** [fstat(fd, &statbuf)] followed by a read of [statbuf.st_size]: the
    length of the file, or whatever the buffer held if the call failed. *)
Definition fstat_st_size (fd : Z) : M OS Z := λ s,
  match open_files s !! fd with
  | Some bytes => Done (Z.of_nat (length bytes)) s
  | None => Done (uninitialised s) s
  end.

(** [mmap(NULL, len, PROT_READ, MAP_SHARED, fd, 0)].  The kernel never
    places a mapping at address 0 nor over an existing one; a zero length
    is an error. *)
Definition mmap (len fd : Z) : M OS Z :=
  file ← gets (λ s, open_files s !! fd);
  match file with
  | None => mret MAP_FAILED
  | Some bytes =>
      if bool_decide (len ≤ 0) then mret MAP_FAILED
      else
        a ← kernel_pick;
        taken ← gets (λ s, views s !! a);
        if bool_decide (a = 0 ∨ a = MAP_FAILED ∨ is_Some taken) then mret MAP_FAILED
        else
          modify (λ s, set_views (<[a := take (Z.to_nat len) bytes]> (views s)) s);;
          mret a
  end.

(** [madvise(addr, len, MADV_RANDOM)] is advice: the mappings stay as they
    are whether it succeeds or not. *)
Definition madvise (addr len : Z) : M OS unit := mret tt.

(** [munmap(addr, len)]: the first [len] bytes of the region at [addr]
    leave the address space; no region there is not an error, a zero
    length is. *)
Definition munmap (addr len : Z) : M OS unit := λ s,
  if bool_decide (len ≤ 0) then Done tt s
  else match views s !! addr with
       | None => Done tt s
       | Some bytes =>
           if bool_decide (Z.of_nat (length bytes) ≤ len)
           then Done tt (set_views (delete addr (views s)) s)
           else Done tt (set_views (<[addr + len := drop (Z.to_nat len) bytes]>
                                      (delete addr (views s))) s)
       end.

(** *** Windows calls *)

(** [GetFileSize(fd, &sizeHigh)]: the low word, and the high word left in
    [sizeHigh]. *)
Definition GetFileSize (fd : Z) : M OS (Z * Z) := λ s,
  match open_files s !! fd with
  | Some bytes =>
      let n := Z.of_nat (length bytes) in
      Done (n `mod` 2 ^ 32, (n `div` 2 ^ 32) `mod` 2 ^ 32) s
  | None => Done (INVALID_FILE_SIZE, uninitialised s) s
  end.

(** [CreateFileMapping(fd, NULL, PAGE_READONLY, sizeHigh, sizeLow, NULL)]:
    a handle to a new mapping object of the given size, or [NULL].  An
    empty file cannot be mapped. *)
Definition CreateFileMapping (fd sizeHigh sizeLow : Z) : M OS Z :=
  file ← gets (λ s, open_files s !! fd);
  match file with
  | None => mret NULL
  | Some bytes =>
      if bool_decide (length bytes = 0%nat) then mret NULL
      else
        h ← kernel_pick;
        taken ← gets (λ s, mapping_objects s !! h);
        if bool_decide (h = 0 ∨ is_Some taken) then mret NULL
        else
          let size := Z.lor (Z.shiftl sizeHigh 32) sizeLow in
          modify (λ s, set_mapping_objects
                         (<[h := take (Z.to_nat size) bytes]> (mapping_objects s)) s);;
          mret h
  end.

(** [MapViewOfFile(map, FILE_MAP_READ, 0, 0, 0)]: a view of the whole
    mapping object, or [NULL]. *)
Definition MapViewOfFile (map : Z) : M OS Z :=
  object ← gets (λ s, mapping_objects s !! map);
  match object with
  | None => mret NULL
  | Some bytes =>
      a ← kernel_pick;
      taken ← gets (λ s, views s !! a);
      if bool_decide (a = 0 ∨ is_Some taken) then mret NULL
      else
        modify (λ s, set_views (<[a := bytes]> (views s)) s);;
        mret a
  end.

(** [UnmapViewOfFile(data)] and [CloseHandle(map)]; both fail without
    effect on a value that names nothing. *)
Definition UnmapViewOfFile (data : Z) : M OS unit :=
  modify (λ s, set_views (delete data (views s)) s).

Definition CloseHandle (map : Z) : M OS unit :=
  modify (λ s, set_mapping_objects (delete map (mapping_objects s)) s).

(** *** The functions of the unit *)

Definition file_size (tg : target) (fd : Z) : M OS Z :=
  match tg with
  | POSIX => fstat_st_size fd
  | WIN32 =>
      '(sizeLow, sizeHigh) ← GetFileSize fd;
      mret (Z.lor (uint64 (Z.shiftl sizeHigh 32)) sizeLow)
  end.

(** [map_file(fd, &map)] returns the pointer together with the value it
    stores in [map]. *)
Definition map_file (tg : target) (fd : Z) : M OS (Z * Z) :=
  match tg with
  | POSIX =>
      map ← file_size POSIX fd;
      data ← mmap map fd;
      madvise data map;;
      mret (if bool_decide (data = MAP_FAILED) then NULL else data, map)
  | WIN32 =>
      '(sizeLow, sizeHigh) ← GetFileSize fd;
      map ← CreateFileMapping fd sizeHigh sizeLow;
      if bool_decide (map = NULL) then mret (NULL, map)
      else
        data ← MapViewOfFile map;
        mret (data, map)
  end.

Definition unmap_file (tg : target) (data map : Z) : M OS unit :=
  if bool_decide (data = NULL) then mret tt
  else
    match tg with
    | POSIX => munmap data map
    | WIN32 => UnmapViewOfFile data;; CloseHandle map
    end.



(** ** Well-formed pools *)

Section pools.
Context {cfg : Config}.

(** [threads] points to a live array whose first element records the
    number of elements. *)
Definition pool_live (m : Machine) (threads : Z) (pool : list Thread) : Prop :=
  thread_arrays m !! threads = Some pool ∧
  ∃ t0, pool !! 0%nat = Some t0 ∧ nthreads t0 = Z.of_nat (length pool).

(** Every thread's [_nnueStack] points to a live block of [STACK_SIZE]
    frames. *)
Definition frames_live (m : Machine) (pool : list Thread) : Prop :=
  ∀ i t, pool !! i = Some t →
    ∃ frames, nnue_blocks m !! _nnueStack t = Some frames ∧
              Z.of_nat (length frames) = STACK_SIZE.

(** Every thread's [nnueStack] points [STACK_OFFSET] frames into its own
    block, and no two threads share a block. *)
Definition frames_owned (pool : list Thread) : Prop :=
  (∀ i t, pool !! i = Some t → nnueStack t = addr__nnueStack (_nnueStack t) STACK_OFFSET) ∧
  NoDup (_nnueStack <$> pool).

(** The state in which [newSearchThreadPool] leaves a thread. *)
Definition started (c lim inf : Z) (b : Board) (t : Thread) : Thread :=
  set_board_st (nnueStack t)
    (set_board b (set_tbhits 0 (set_nodes 0 (set_height 0
      (set_contempt c (set_info inf (set_limits lim t))))))).

(** The contempt computed at the start of a search. *)
Definition search_contempt (m : Machine) (b : Board) : Z :=
  let c := MakeScore (int_add (ContemptDrawPenalty m) (ContemptComplexity m))
                     (ContemptDrawPenalty m) in
  if bool_decide (turn b = BLACK) then int_neg c else c.

(** The effect of one pass of the inner loop of [newSearchThreadPool] on
    the block at [base], and of the passes for the threads owning [bases]. *)
Definition stale (f : NNUEStack) : NNUEStack := set_computedAccumulation 0 f.

Definition stale_block (blocks : gmap Z (list NNUEStack)) (base : Z) : gmap Z (list NNUEStack) :=
  match blocks !! base with
  | Some frames => <[base := stale <$> frames]> blocks
  | None => blocks
  end.

Definition stale_blocks (bases : list Z) (blocks : gmap Z (list NNUEStack)) :=
  foldl stale_block blocks bases.

(** The state in which [resetThreadPool] leaves a thread. *)
Definition cleared (t : Thread) : Thread :=
  set_continuation (memset_zero (continuation t))
    (set_chistory (memset_zero (chistory t))
      (set_history (memset_zero (history t))
        (set_cmtable (memset_zero (cmtable t))
          (set_killers (memset_zero (killers t))
            (set_pktable (memset_zero (pktable t))
              (set_evtable (memset_zero (evtable t)) t)))))).

(** The tables of a thread, in the order of the declaration. *)
Definition tables (t : Thread) : list (list Z) :=
  [evtable t; pktable t; killers t; cmtable t; history t; chistory t; continuation t].

Definition all_zero (x : list Z) : Prop := Forall (λ v, v = 0) x.

(** The unpacking macros recover both terms of a packed score, and the
    terms of its negation are the negated terms. *)
Definition packs_pairs : Prop :=
  ∀ mg eg, -32767 ≤ mg ≤ 32767 → -32767 ≤ eg ≤ 32767 →
    (ScoreMG (MakeScore mg eg) = mg ∧ ScoreEG (MakeScore mg eg) = eg) ∧
    (ScoreMG (int_neg (MakeScore mg eg)) = - mg ∧ ScoreEG (int_neg (MakeScore mg eg)) = - eg).

(** The block base the [i]-th call of [ethereal_alloc] receives when the
    allocator still has the decisions [rest] to make. *)
Definition alloc_result (rest : list Z) (i : Z) : Z := default NULL (rest !! Z.to_nat i).

(** The alignment test of [createThreadPool] on all frames of a block. *)
Definition block_aligned (base : Z) : Prop :=
  ∀ j, 0 ≤ j < STACK_SIZE → addr_accumulation base j `mod` 64 = 0.

(** The state in which [createThreadPool] leaves thread [i]. *)
Definition created (threads n i base : Z) : Thread :=
  set_nnueStack (addr__nnueStack base STACK_OFFSET)
    (set__nnueStack base
      (set_nthreads n (set_threads threads (set_index i
        (set_nnueStack (addr__nnueStack NULL STACK_OFFSET)
          (set_pieceStack (addr__pieceStack threads i STACK_OFFSET)
            (set_moveStack (addr__moveStack threads i STACK_OFFSET)
              (set_evalStack (addr__evalStack threads i STACK_OFFSET) Thread_zero)))))))).

(** The blocks after [ethereal_alloc] was served at [base], and the array
    and the machine that [createThreadPool] builds. *)
Definition install_block (junk : Z → NNUEStack) (blocks : gmap Z (list NNUEStack)) (base : Z) :=
  if bool_decide (base = NULL) then blocks
  else <[base := fresh_block junk base (sizeof_NNUEStack * STACK_SIZE)]> blocks.

Definition created_pool (threads n : Z) (rest : list Z) (k : nat) : list Thread :=
  (λ i : nat, created threads n (Z.of_nat i) (alloc_result rest (Z.of_nat i))) <$> seq 0 k.

Definition created_machine (threads n : Z) (rest : list Z) (k : nat) (m : Machine) : Machine :=
  put_pool threads
    (created_pool threads n rest k ++ replicate (Z.to_nat n - k) Thread_zero)
    (set_nnue_blocks
       (foldl (install_block (junk m)) (nnue_blocks m)
              ((λ i : nat, alloc_result rest (Z.of_nat i)) <$> seq 0 k))
       (set_allocator (drop k rest) m)).

(** The members of a thread that [resetThreadPool] does not name, those
    that [newSearchThreadPool] does not name, and the members of a frame
    other than the flag. *)
Definition kept_by_reset (t : Thread) :=
  (limits t, info t, board t, contempt t, (height t, nodes t, tbhits t),
   (evalStack t, moveStack t, pieceStack t, nnueStack t, _nnueStack t),
   (_evalStack t, _moveStack t, _pieceStack t), (index t, nthreads t, threads t)).

Definition kept_by_search (t : Thread) :=
  (tables t, (evalStack t, moveStack t, pieceStack t, nnueStack t, _nnueStack t),
   (_evalStack t, _moveStack t, _pieceStack t), (index t, nthreads t, threads t)).

Definition frame_data (f : NNUEStack) := (accumulation (accumulator f), nnue_rest f).

(** Nothing lives at the null address. *)
Definition null_free (m : Machine) : Prop :=
  thread_arrays m !! NULL = None ∧ nnue_blocks m !! NULL = None.

(** The pointer [p] gives access to an array of [capacity] elements of
    [size] bytes starting at [start], with [STACK_OFFSET] elements in front
    of [p[0]]: [&p[-1]] and [&p[0]] are the addresses of the elements
    [STACK_OFFSET - 1] and [STACK_OFFSET] of the array, both inside it, and
    they differ. *)
Definition looks_back (start size capacity p : Z) : Prop :=
  p = start + STACK_OFFSET * size ∧
  (p + -1 * size = start + (STACK_OFFSET - 1) * size ∧ 0 ≤ STACK_OFFSET - 1 < capacity) ∧
  (p + 0 * size = start + STACK_OFFSET * size ∧ 0 ≤ STACK_OFFSET < capacity) ∧
  p + -1 * size ≠ p + 0 * size.

End pools.

(** ** A configuration to run the definitions on

    Two signed 16-bit halves packed into an [int], the middlegame term in
    the low half; 4 slots in front of 128 plies; small tables. *)

Definition sint16 (x : Z) : Z := (x + 2 ^ 15) mod 2 ^ 16 - 2 ^ 15.
Definition uint32 (x : Z) : Z := x mod 2 ^ 32.

Definition packed_MakeScore (mg eg : Z) : Z :=
  int_add (sint32 (uint32 (Z.shiftl (uint32 eg) 16))) mg.
Definition packed_ScoreMG (s : Z) : Z := sint16 (uint32 s mod 2 ^ 16).
Definition packed_ScoreEG (s : Z) : Z :=
  sint16 (Z.shiftr (uint32 (s + 32768)) 16 mod 2 ^ 16).

#[local] Instance sample_config : Config := {|
  BLACK := 1;
  MakeScore := packed_MakeScore;
  ScoreMG := packed_ScoreMG;
  ScoreEG := packed_ScoreEG;
  STACK_OFFSET := 4;
  STACK_SIZE := 132;
  sizeof_Thread := 8192;
  offsetof__evalStack := 512;
  offsetof__moveStack := 1088;
  offsetof__pieceStack := 1408;
  sizeof_evalStack_elt := 4;
  sizeof_moveStack_elt := 2;
  sizeof_pieceStack_elt := 4;
  sizeof_NNUEStack := 1152;
  offsetof_accumulation := 64;
  sizeof_Board_rest := 8;
  sizeof_EvalTable := 4;
  sizeof_PKTable := 4;
  sizeof_KillerTable := 4;
  sizeof_CounterMoveTable := 4;
  sizeof_HistoryTable := 4;
  sizeof_CaptureHistoryTable := 4;
  sizeof_ContinuationTable := 4;
|}.

(** A machine before the pool exists: the allocator will serve [calloc]
    at [0x10000] and the aligned requests at [0x40000], [0x80000], ... *)
Definition sample_frame : NNUEStack :=
  {| accumulator := {| accumulation := [7; 7]; computedAccumulation := 1 |};
     nnue_rest := [9] |}.

Definition sample_boot (dp cc : Z) : Machine :=
  {| ContemptDrawPenalty := dp; ContemptComplexity := cc;
     thread_arrays := ∅; nnue_blocks := ∅;
     allocator := [65536; 262144; 524288; 786432; 1048576; 1310720];
     junk := λ _, sample_frame |}.

(** The machine after a pool of four threads was created at [0x10000] and
    a search has left counters and tables behind. *)
Definition sample_threads : Z := 65536.

Definition sample_machine : Machine :=
  match (threads ← createThreadPool 4;
         store_thread threads 0 (set_nodes 10);;
         store_thread threads 2 (set_nodes 7);;
         store_thread threads 3 (set_nodes 3);;
         store_thread threads 1 (set_tbhits 2);;
         store_thread threads 3 (set_tbhits 5);;
         store_thread threads 1 (set_height 9);;
         store_thread threads 0 (set_killers [3; 1; 4; 1]);;
         store_thread threads 2 (set_history [2; 7; 1; 8])) (sample_boot 20 5) with
  | Done _ m => m
  | _ => sample_boot 20 5
  end.

(** The same pool after thread 1 has counted [2^64 - 5] nodes. *)
Definition busy_machine : Machine :=
  match store_thread sample_threads 1 (set_nodes (2 ^ 64 - 5)) sample_machine with
  | Done _ m => m
  | _ => sample_machine
  end.

Definition sample_pool : list Thread :=
  default [] (thread_arrays sample_machine !! sample_threads).

(** The same machine with an allocator that is about to hand out a block
    eight bytes past a multiple of 64. *)
Definition misaligned_boot : Machine :=
  {| ContemptDrawPenalty := 0; ContemptComplexity := 0;
     thread_arrays := ∅; nnue_blocks := ∅;
     allocator := [65536; 262144; 524296; 786432];
     junk := λ _, sample_frame |}.

(** A machine whose allocator serves [calloc] and one aligned request and
    then refuses, the pool of three threads created on it, and a machine
    whose allocator refuses at once. *)
Definition starved_boot : Machine :=
  {| ContemptDrawPenalty := 0; ContemptComplexity := 0;
     thread_arrays := ∅; nnue_blocks := ∅;
     allocator := [65536; 262144];
     junk := λ _, sample_frame |}.

Definition starved_machine : Machine :=
  match createThreadPool 3 starved_boot with
  | Done _ m => m
  | _ => starved_boot
  end.

Definition starved_pool : list Thread :=
  default [] (thread_arrays starved_machine !! sample_threads).

Definition dry_boot : Machine :=
  {| ContemptDrawPenalty := 0; ContemptComplexity := 0;
     thread_arrays := ∅; nnue_blocks := ∅;
     allocator := [];
     junk := λ _, sample_frame |}.

Definition sample_board (side : Z) : Board :=
  {| turn := side; st := 12345; board_rest := [1; 2; 3; 4; 5; 6; 7; 8] |}.

(** An operating system with one file of three bytes open on descriptor
    5, about to pick [700] and then [4096]. *)
Definition sample_os : OS :=
  {| open_files := {[ 5 := [10; 20; 30] ]}; views := ∅; mapping_objects := ∅;
     kernel := [700; 4096]; uninitialised := 77 |}.

(** The same system when the kernel is about to pick [700] and then to
    refuse. *)
Definition refusing_os : OS :=
  {| open_files := {[ 5 := [10; 20; 30] ]}; views := ∅; mapping_objects := ∅;
     kernel := [700; 0]; uninitialised := 77 |}.

(** The system after [map_file] ran on descriptor 5. *)
Definition sample_mapped (tg : target) : OS :=
  match map_file tg 5 sample_os with
  | Done _ s => s
  | _ => sample_os
  end.

(** * Properties *)

(** ** Running computations *)

Lemma bind_Done {St A B} (c : M St A) (k : A → M St B) s a s' :
  c s = Done a s' → (c ≫= k) s = k a s'.
Proof. intros H. unfold mbind, M_bind. by rewrite H. Qed.

Lemma bind_outcome {St A B} (c : M St A) (k : A → M St B) s :
  (c ≫= k) s = match c s with
               | Done a s' => k a s'
               | Exit code => Exit code
               | Fault => Fault
               end.
Proof. reflexivity. Qed.

Lemma fmap_Done {St A B} (f : A → B) (c : M St A) s a s' :
  c s = Done a s' → (f <$> c) s = Done (f a) s'.
Proof. intros H. unfold fmap, M_fmap. by rewrite H. Qed.

Lemma fold_from_S {St A} (body : Z → A → M St A) i count acc s :
  fold_from i (S count) body acc s
  = (body i acc ≫= fold_from (i + 1) count body) s.
Proof. reflexivity. Qed.

(** The loop rule: an invariant indexed by the number of completed
    iterations, and a condition on the exit code. *)
Lemma fold_from_rule {St A} (body : Z → A → M St A)
    (I : nat → A → St → Prop) (E : Z → Prop) count :
  ∀ k acc s,
    I k acc s →
    (∀ j acc s, (k ≤ j < k + count)%nat → I j acc s →
       match body (Z.of_nat j) acc s with
       | Done acc' s' => I (S j) acc' s'
       | Exit c => E c
       | Fault => False
       end) →
    match fold_from (Z.of_nat k) count body acc s with
    | Done acc' s' => I (k + count)%nat acc' s'
    | Exit c => E c
    | Fault => False
    end.
Proof.
  induction count as [|count IH]; intros k acc s HI Hbody.
  - cbn. by rewrite Nat.add_0_r.
  - rewrite fold_from_S. unfold mbind, M_bind.
    pose proof (Hbody k acc s ltac:(lia) HI) as Hk.
    destruct (body (Z.of_nat k) acc s) as [acc' s'| |]; [|done..].
    replace (Z.of_nat k + 1) with (Z.of_nat (S k)) by lia.
    replace (k + S count)%nat with (S k + count)%nat by lia.
    apply IH; [done|]. intros j acc1 s1 Hj. apply Hbody. lia.
Qed.

(** The same rule for a body that always returns. *)
Lemma fold_from_total {St A} (body : Z → A → M St A) (I : nat → A → St → Prop) count k acc s :
  I k acc s →
  (∀ j acc s, (k ≤ j < k + count)%nat → I j acc s →
     ∃ acc' s', body (Z.of_nat j) acc s = Done acc' s' ∧ I (S j) acc' s') →
  ∃ acc' s', fold_from (Z.of_nat k) count body acc s = Done acc' s' ∧
             I (k + count)%nat acc' s'.
Proof.
  intros HI Hbody.
  pose proof (fold_from_rule body I (λ _, False) count k acc s HI) as Hrule.
  destruct (fold_from (Z.of_nat k) count body acc s) as [acc' s'| |].
  - exists acc', s'. split; [done|]. apply Hrule. intros j acc1 s1 Hj HI1.
    destruct (Hbody j acc1 s1 Hj HI1) as (acc2 & s2 & -> & HI2). done.
  - exfalso. apply Hrule. intros j acc1 s1 Hj HI1.
    destruct (Hbody j acc1 s1 Hj HI1) as (acc2 & s2 & -> & HI2). done.
  - exfalso. apply Hrule. intros j acc1 s1 Hj HI1.
    destruct (Hbody j acc1 s1 Hj HI1) as (acc2 & s2 & -> & HI2). done.
Qed.

(** ** The machine state *)

Lemma Machine_eta m :
  m = {| ContemptDrawPenalty := ContemptDrawPenalty m;
         ContemptComplexity := ContemptComplexity m;
         thread_arrays := thread_arrays m; nnue_blocks := nnue_blocks m;
         allocator := allocator m; junk := junk m |}.
Proof. by destruct m. Qed.

Lemma put_pool_same threads arr m :
  thread_arrays m !! threads = Some arr → put_pool threads arr m = m.
Proof.
  intros H. rewrite (Machine_eta m) at 2. unfold put_pool, set_thread_arrays.
  by rewrite insert_id.
Qed.

Lemma put_pool_put_pool threads arr1 arr2 m :
  put_pool threads arr2 (put_pool threads arr1 m) = put_pool threads arr2 m.
Proof. unfold put_pool, set_thread_arrays. cbn. by rewrite insert_insert_eq. Qed.

Lemma put_block_same base frames m :
  nnue_blocks m !! base = Some frames → put_block base frames m = m.
Proof.
  intros H. rewrite (Machine_eta m) at 2. unfold put_block, set_nnue_blocks.
  by rewrite insert_id.
Qed.

Lemma put_block_put_block base fr1 fr2 m :
  put_block base fr2 (put_block base fr1 m) = put_block base fr2 m.
Proof. unfold put_block, set_nnue_blocks. cbn. by rewrite insert_insert_eq. Qed.

Lemma thread_arrays_put_pool threads arr m :
  thread_arrays (put_pool threads arr m) !! threads = Some arr.
Proof. cbn. apply lookup_insert_eq. Qed.

Lemma nnue_blocks_put_block base frames m :
  nnue_blocks (put_block base frames m) !! base = Some frames.
Proof. cbn. apply lookup_insert_eq. Qed.

Lemma load_thread_at threads i m arr t :
  thread_arrays m !! threads = Some arr → arr !! i = Some t →
  load_thread threads (Z.of_nat i) m = Done t m.
Proof.
  intros Harr Ht. unfold load_thread. rewrite Harr.
  rewrite bool_decide_eq_true_2 by lia. by rewrite Nat2Z.id, Ht.
Qed.

Lemma store_thread_at threads i f m arr t :
  thread_arrays m !! threads = Some arr → arr !! i = Some t →
  store_thread threads (Z.of_nat i) f m = Done tt (put_pool threads (<[i := f t]> arr) m).
Proof.
  intros Harr Ht. unfold store_thread. rewrite Harr.
  rewrite bool_decide_eq_true_2 by lia. by rewrite Nat2Z.id, Ht.
Qed.

Lemma store_frame_at base j f m frames fr :
  nnue_blocks m !! base = Some frames → frames !! j = Some fr →
  store_frame base (Z.of_nat j) f m = Done tt (put_block base (<[j := f fr]> frames) m).
Proof.
  intros Hb Hfr. unfold store_frame. rewrite Hb.
  rewrite bool_decide_eq_true_2 by lia. by rewrite Nat2Z.id, Hfr.
Qed.

(** A store to [threads[i]] followed by the rest of the body, on a state
    whose array is known. *)
Lemma store_thread_step {B} threads i f (rest : M Machine B) arr t m :
  (i < length arr)%nat →
  (store_thread threads (Z.of_nat i) f ≫= λ _, rest) (put_pool threads (<[i := t]> arr) m)
  = rest (put_pool threads (<[i := f t]> arr) m).
Proof.
  intros Hi. erewrite bind_Done; last first.
  { eapply store_thread_at; [apply thread_arrays_put_pool|].
    by apply list_lookup_insert_eq. }
  by rewrite put_pool_put_pool, list_insert_insert_eq.
Qed.

Lemma load_thread_step {A B} threads i (proj : Thread → A) (rest : A → M Machine B) arr t m :
  (i < length arr)%nat →
  ((proj <$> load_thread threads (Z.of_nat i)) ≫= rest) (put_pool threads (<[i := t]> arr) m)
  = rest (proj t) (put_pool threads (<[i := t]> arr) m).
Proof.
  intros Hi. erewrite bind_Done; [done|]. apply fmap_Done.
  eapply load_thread_at; [apply thread_arrays_put_pool|].
  by apply list_lookup_insert_eq.
Qed.

Lemma put_pool_focus threads i arr t m :
  thread_arrays m !! threads = Some arr → arr !! i = Some t →
  m = put_pool threads (<[i := t]> arr) m.
Proof. intros Harr Ht. by rewrite list_insert_id, put_pool_same. Qed.

Lemma gets_step {St A B} (f : St → A) (k : A → M St B) s :
  (gets f ≫= k) s = k (f s) s.
Proof. reflexivity. Qed.

Lemma store_frame_step threads arr base j f frames fr m :
  frames !! j = Some fr →
  store_frame base (Z.of_nat j) f (put_pool threads arr (put_block base frames m))
  = Done tt (put_pool threads arr (put_block base (<[j := f fr]> frames) m)).
Proof.
  intros Hfr. erewrite store_frame_at; [|cbn; apply lookup_insert_eq|done].
  unfold put_pool, put_block, set_thread_arrays, set_nnue_blocks. cbn.
  by rewrite insert_insert_eq.
Qed.

(** ** Lists updated from the front *)

Lemma prefix_focus {A} (f : A → A) (l : list A) k x :
  l !! k = Some x → ((f <$> take k l) ++ drop k l) !! k = Some x.
Proof.
  intros Hx. pose proof (lookup_lt_Some _ _ _ Hx) as Hlt.
  rewrite lookup_app_r; rewrite length_fmap, length_take; [|lia].
  rewrite lookup_drop. by replace (k + (k - k `min` length l))%nat with k by lia.
Qed.

Lemma prefix_step {A} (f : A → A) (l : list A) k x :
  l !! k = Some x →
  <[k := f x]> ((f <$> take k l) ++ drop k l) = (f <$> take (S k) l) ++ drop (S k) l.
Proof.
  intros Hx. pose proof (lookup_lt_Some _ _ _ Hx) as Hlt.
  rewrite (take_S_r _ _ _ Hx), fmap_app, <- assoc_L by apply _.
  rewrite (drop_S _ _ _ Hx).
  rewrite insert_app_r_alt; rewrite length_fmap, length_take; [|lia].
  by replace (k - k `min` length l)%nat with 0%nat by lia.
Qed.

Lemma prefix_length {A} (f : A → A) (l : list A) k :
  length ((f <$> take k l) ++ drop k l) = length l.
Proof. rewrite length_app, length_fmap, length_take, length_drop. lia. Qed.

Lemma prefix_all {A} (f : A → A) (l : list A) :
  (f <$> take (length l) l) ++ drop (length l) l = f <$> l.
Proof. by rewrite firstn_all, drop_all, app_nil_r. Qed.

(** ** The blocks of a pool *)

Lemma stale_stale f : stale (stale f) = stale f.
Proof. reflexivity. Qed.

Lemma stale_block_lookup blocks base b :
  stale_block blocks base !! b
  = if decide (b = base) then fmap stale <$> blocks !! b else blocks !! b.
Proof.
  unfold stale_block. case_decide as Hb.
  - subst b. destruct (blocks !! base) as [frames|] eqn:E.
    + by rewrite lookup_insert_eq.
    + by rewrite E.
  - destruct (blocks !! base); [|done]. by rewrite lookup_insert_ne.
Qed.

Lemma stale_blocks_lookup bases : ∀ blocks b,
  stale_blocks bases blocks !! b
  = if decide (b ∈ bases) then fmap stale <$> blocks !! b else blocks !! b.
Proof.
  unfold stale_blocks.
  induction bases as [|base bases IH]; intros blocks b; cbn.
  - case_decide as H; [by apply elem_of_nil in H|done].
  - rewrite IH, stale_block_lookup.
    destruct (decide (b = base)) as [->|Hne].
    + rewrite (decide_True (P := base ∈ base :: bases)) by apply list_elem_of_here.
      case_decide; [|done].
      destruct (blocks !! base) as [frames|]; [|done]. cbn.
      f_equal. rewrite <- list_fmap_compose. by apply list_fmap_ext.
    + case_decide as Hin.
      * by rewrite decide_True by by apply list_elem_of_further.
      * rewrite decide_False; [done|]. intros [?|?]%elem_of_cons; done.
Qed.

Lemma stale_blocks_snoc bases base blocks :
  stale_blocks (bases ++ [base]) blocks = stale_block (stale_blocks bases blocks) base.
Proof. unfold stale_blocks. by rewrite foldl_app. Qed.

(** ** Wrapping sums *)

Lemma foldr_add_start (l : list Z) a : foldr Z.add a l = foldr Z.add 0 l + a.
Proof. induction l as [|x l IH]; cbn; [done|]. rewrite IH. lia. Qed.

Lemma uint64_sum_snoc (l : list Z) x :
  uint64 (uint64 (foldr Z.add 0 l) + x) = uint64 (foldr Z.add 0 (l ++ [x])).
Proof.
  unfold uint64. rewrite foldr_app. cbn. rewrite (foldr_add_start l (x + 0)).
  rewrite Zplus_mod_idemp_l. f_equal. lia.
Qed.

Section thread_proofs.
Context {cfg : Config}.

(** Reading the loop bound [threads->nthreads] of a live pool. *)
Lemma pool_count_step {B} (k : Z → M Machine B) m threads pool :
  pool_live m threads pool →
  ((nthreads <$> load_thread threads 0) ≫= k) m = k (Z.of_nat (length pool)) m.
Proof.
  intros (Hpool & t0 & Ht0 & <-).
  erewrite bind_Done; [done|]. apply fmap_Done. by apply (load_thread_at _ 0 _ pool).
Qed.

Lemma frames_live_stale m pool bases i t :
  frames_live m pool → pool !! i = Some t →
  ∃ frames, stale_blocks bases (nnue_blocks m) !! _nnueStack t = Some frames ∧
            Z.of_nat (length frames) = STACK_SIZE.
Proof.
  intros Hlive Ht. destruct (Hlive i t Ht) as (frames & Hfr & Hlen).
  rewrite stale_blocks_lookup, Hfr. case_decide; cbn; eexists; split; try done.
  by rewrite length_fmap.
Qed.

(** The inner loop of [newSearchThreadPool] marks every frame of the
    block of [threads[i]]. *)
Lemma newSearch_frames_run threads i arr t frames m :
  arr !! i = Some t →
  Z.of_nat (length frames) = STACK_SIZE →
  for_loop STACK_SIZE (λ j,
      base ← _nnueStack <$> load_thread threads (Z.of_nat i);
      store_frame base j (set_computedAccumulation 0))
    (put_pool threads arr (put_block (_nnueStack t) frames m))
  = Done tt (put_pool threads arr (put_block (_nnueStack t) (stale <$> frames) m)).
Proof.
  intros Ht Hlen. unfold for_loop. rewrite <- Hlen, Nat2Z.id.
  destruct (fold_from_total
    (λ j _, base ← _nnueStack <$> load_thread threads (Z.of_nat i);
            store_frame base j (set_computedAccumulation 0))
    (λ j _ s, s = put_pool threads arr
                    (put_block (_nnueStack t) ((stale <$> take j frames) ++ drop j frames) m))
    (length frames) 0%nat tt
    (put_pool threads arr (put_block (_nnueStack t) frames m)))
    as ([] & s' & Hrun & ->).
  - by rewrite drop_0.
  - intros j [] s [_ Hj] ->. cbn in Hj.
    destruct (lookup_lt_is_Some_2 frames j Hj) as [fr Hfr].
    exists tt. eexists. split; [|done].
    erewrite bind_Done; last first.
    { apply fmap_Done. eapply load_thread_at; [apply thread_arrays_put_pool|done]. }
    erewrite store_frame_step by by apply prefix_focus.
    change (set_computedAccumulation 0 fr) with (stale fr).
    by rewrite (prefix_step stale _ _ _ Hfr).
  - change (Z.of_nat 0) with 0 in Hrun. rewrite Hrun. cbn [Nat.add].
    by rewrite prefix_all.
Qed.


(** One pass of the outer loop of [newSearchThreadPool]. *)
Lemma newSearch_body_run threads k arr t frames c lim inf b m :
  (k < length arr)%nat →
  Z.of_nat (length frames) = STACK_SIZE →
  (store_thread threads (Z.of_nat k) (set_limits lim);;
   store_thread threads (Z.of_nat k) (set_info inf);;
   store_thread threads (Z.of_nat k) (set_contempt c);;
   store_thread threads (Z.of_nat k) (set_height 0);;
   store_thread threads (Z.of_nat k) (set_nodes 0);;
   store_thread threads (Z.of_nat k) (set_tbhits 0);;
   store_thread threads (Z.of_nat k) (set_board b);;
   top ← nnueStack <$> load_thread threads (Z.of_nat k);
   store_thread threads (Z.of_nat k) (set_board_st top);;
   for_loop STACK_SIZE (λ j,
     base ← _nnueStack <$> load_thread threads (Z.of_nat k);
     store_frame base j (set_computedAccumulation 0)))
    (put_pool threads (<[k := t]> arr) (put_block (_nnueStack t) frames m))
  = Done tt (put_pool threads (<[k := started c lim inf b t]> arr)
               (put_block (_nnueStack t) (stale <$> frames) m)).
Proof.
  intros Hk Hlen.
  do 7 (rewrite store_thread_step by done).
  rewrite load_thread_step by done.
  rewrite store_thread_step by done.
  apply (newSearch_frames_run threads k _ (started c lim inf b t)); [|done].
  by apply list_lookup_insert_eq.
Qed.

Lemma newSearchThreadPool_run m threads pool b lim inf :
  pool_live m threads pool → frames_live m pool →
  newSearchThreadPool threads b lim inf m
  = Done tt (set_nnue_blocks (stale_blocks (_nnueStack <$> pool) (nnue_blocks m))
               (put_pool threads (started (search_contempt m b) lim inf b <$> pool) m)).
Proof.
  intros Hlive Hframes. unfold newSearchThreadPool.
  rewrite !gets_step, (pool_count_step _ m threads pool Hlive).
  destruct Hlive as [Hpool _]. unfold for_loop. rewrite Nat2Z.id.
  fold (search_contempt m b). set (c := search_contempt m b).
  set (F := started c lim inf b).
  match goal with |- fold_from 0 _ ?body _ _ = _ =>
    destruct (fold_from_total body
      (λ k _ s, s = set_nnue_blocks
                      (stale_blocks (take k (_nnueStack <$> pool)) (nnue_blocks m))
                      (put_pool threads ((F <$> take k pool) ++ drop k pool) m))
      (length pool) 0%nat tt m) as ([] & s' & Hrun & ->)
  end.
  - cbn [take fmap list_fmap]. rewrite drop_0, put_pool_same by done. by destruct m.
  - intros k [] s [_ Hk] ->. cbn in Hk.
    destruct (lookup_lt_is_Some_2 pool k Hk) as [t Ht].
    destruct (frames_live_stale m pool (take k (_nnueStack <$> pool)) k t Hframes Ht)
      as (frames & Hfr & Hlen).
    exists tt. eexists. split; [|reflexivity].
    set (arr := (F <$> take k pool) ++ drop k pool).
    set (blocks := stale_blocks (take k (_nnueStack <$> pool)) (nnue_blocks m)) in *.
    assert (Harr : arr !! k = Some t) by by apply prefix_focus.
    assert (Hlt : (k < length arr)%nat) by (unfold arr; by rewrite prefix_length).
    transitivity (Done (St := Machine) tt
      (put_pool threads (<[k := F t]> arr)
         (put_block (_nnueStack t) (stale <$> frames) (set_nnue_blocks blocks m)))).
    + rewrite <- (newSearch_body_run threads k arr t frames c lim inf b) by done.
      f_equal. rewrite list_insert_id by done.
      unfold put_pool, put_block, set_thread_arrays, set_nnue_blocks. cbn.
      by rewrite (insert_id blocks) by done.
    + f_equal. unfold arr. rewrite (prefix_step F _ _ _ Ht).
      rewrite (take_S_r _ _ (_nnueStack t)) by by rewrite list_lookup_fmap, Ht.
      rewrite stale_blocks_snoc. fold blocks. unfold stale_block. by rewrite Hfr.
  - change (Z.of_nat 0) with 0 in Hrun. rewrite Hrun. cbn [Nat.add].
    rewrite prefix_all. rewrite <- (length_fmap _nnueStack pool), firstn_all. done.
Qed.

(** One pass of the loop of [resetThreadPool]. *)
Lemma reset_body_run threads k arr t m :
  (k < length arr)%nat →
  (store_thread threads (Z.of_nat k) (λ t, set_evtable (memset_zero (evtable t)) t);;
   store_thread threads (Z.of_nat k) (λ t, set_pktable (memset_zero (pktable t)) t);;
   store_thread threads (Z.of_nat k) (λ t, set_killers (memset_zero (killers t)) t);;
   store_thread threads (Z.of_nat k) (λ t, set_cmtable (memset_zero (cmtable t)) t);;
   store_thread threads (Z.of_nat k) (λ t, set_history (memset_zero (history t)) t);;
   store_thread threads (Z.of_nat k) (λ t, set_chistory (memset_zero (chistory t)) t);;
   store_thread threads (Z.of_nat k) (λ t, set_continuation (memset_zero (continuation t)) t))
    (put_pool threads (<[k := t]> arr) m)
  = Done tt (put_pool threads (<[k := cleared t]> arr) m).
Proof.
  intros Hk.
  do 6 (rewrite store_thread_step by done).
  erewrite store_thread_at;
    [|apply thread_arrays_put_pool|by apply list_lookup_insert_eq].
  by rewrite put_pool_put_pool, list_insert_insert_eq.
Qed.

Lemma resetThreadPool_run m threads pool :
  pool_live m threads pool →
  resetThreadPool threads m = Done tt (put_pool threads (cleared <$> pool) m).
Proof.
  intros Hlive. unfold resetThreadPool.
  rewrite (pool_count_step _ m threads pool Hlive).
  destruct Hlive as [Hpool _]. unfold for_loop. rewrite Nat2Z.id.
  match goal with |- fold_from 0 _ ?body _ _ = _ =>
    destruct (fold_from_total body
      (λ k _ s, s = put_pool threads ((cleared <$> take k pool) ++ drop k pool) m)
      (length pool) 0%nat tt m) as ([] & s' & Hrun & ->)
  end.
  - cbn. rewrite drop_0. by rewrite put_pool_same.
  - intros k [] s [_ Hk] ->. cbn in Hk.
    destruct (lookup_lt_is_Some_2 pool k Hk) as [t Ht].
    exists tt. eexists. split; [|reflexivity].
    set (arr := (cleared <$> take k pool) ++ drop k pool).
    assert (Harr : arr !! k = Some t) by by apply prefix_focus.
    assert (Hlt : (k < length arr)%nat) by (unfold arr; by rewrite prefix_length).
    rewrite <- (list_insert_id arr k t) at 1 by done.
    rewrite reset_body_run by done.
    unfold arr. by rewrite (prefix_step cleared _ _ _ Ht).
  - change (Z.of_nat 0) with 0 in Hrun. rewrite Hrun. cbn [Nat.add].
    by rewrite prefix_all.
Qed.

(** The sum of a counter over the threads of a pool. *)
Lemma counter_sum_run (counter : Thread → Z) m threads pool :
  thread_arrays m !! threads = Some pool →
  fold_from 0 (length pool) (λ i acc,
      t ← load_thread threads i;
      mret (uint64 (acc + counter t))) 0 m
  = Done (uint64 (foldr Z.add 0 (counter <$> pool))) m.
Proof.
  intros Hpool.
  match goal with |- fold_from 0 _ ?body _ _ = _ =>
    destruct (fold_from_total body
      (λ k acc s, s = m ∧ acc = uint64 (foldr Z.add 0 (counter <$> take k pool)))
      (length pool) 0%nat 0 m) as (acc & s' & Hrun & -> & ->)
  end.
  - done.
  - intros k acc s [_ Hk] [-> ->]. cbn in Hk.
    destruct (lookup_lt_is_Some_2 pool k Hk) as [t Ht].
    eexists. exists m. split.
    + erewrite bind_Done; [|by eapply load_thread_at]. reflexivity.
    + split; [done|]. by rewrite (take_S_r _ _ _ Ht), fmap_app, uint64_sum_snoc.
  - change (Z.of_nat 0) with 0 in Hrun. rewrite Hrun. cbn [Nat.add].
    by rewrite firstn_all.
Qed.

Lemma nodesSearchedThreadPool_run m threads pool :
  pool_live m threads pool →
  nodesSearchedThreadPool threads m = Done (uint64 (foldr Z.add 0 (nodes <$> pool))) m.
Proof.
  intros Hlive. unfold nodesSearchedThreadPool.
  rewrite (pool_count_step _ m threads pool Hlive), Nat2Z.id.
  apply (counter_sum_run nodes), Hlive.
Qed.

Lemma tbhitsThreadPool_run m threads pool :
  pool_live m threads pool →
  tbhitsThreadPool threads m = Done (uint64 (foldr Z.add 0 (tbhits <$> pool))) m.
Proof.
  intros Hlive. unfold tbhitsThreadPool.
  rewrite (pool_count_step _ m threads pool Hlive), Nat2Z.id.
  apply (counter_sum_run tbhits), Hlive.
Qed.

End thread_proofs.

(** ** Pool creation *)

Section create_proofs.
Context {cfg : Config}.

Lemma ethereal_alloc_step {B} size alignment (k : Z → M Machine B) threads arr blocks rest m :
  (ethereal_alloc size alignment ≫= k)
    (put_pool threads arr (set_nnue_blocks blocks (set_allocator rest m)))
  = k (default NULL (head rest))
      (put_pool threads arr
         (set_nnue_blocks
            (if bool_decide (default NULL (head rest) = NULL) then blocks
             else <[default NULL (head rest) :=
                      fresh_block (junk m) (default NULL (head rest)) size]> blocks)
            (set_allocator (tail rest) m))).
Proof.
  unfold ethereal_alloc, posix_memalign, next_address, mbind, M_bind, mret, M_ret, modify.
  cbn. case_bool_decide as Hnull.
  - by rewrite Hnull.
  - by rewrite (bool_decide_eq_false_2 (0 ≠ 0)) by (intros H; by apply H).
Qed.

(** The alignment test over the frames of the block of [threads[i]]. *)
Lemma alignment_loop_outcome threads i arr t m :
  arr !! i = Some t →
  thread_arrays m !! threads = Some arr →
  match for_loop STACK_SIZE (λ j,
          base ← _nnueStack <$> load_thread threads (Z.of_nat i);
          if bool_decide (addr_accumulation base j `mod` 64 ≠ 0)
          then exit EXIT_FAILURE else mret tt) m with
  | Done _ m' => m' = m ∧ block_aligned (_nnueStack t)
  | Exit c => c = EXIT_FAILURE ∧ ¬ block_aligned (_nnueStack t)
  | Fault => False
  end.
Proof.
  intros Ht Harr. unfold for_loop.
  match goal with |- match fold_from 0 _ ?body _ _ with _ => _ end =>
    pose proof (fold_from_rule body
      (λ j _ s, s = m ∧ ∀ j', 0 ≤ j' < Z.of_nat j →
                       addr_accumulation (_nnueStack t) j' `mod` 64 = 0)
      (λ c, c = EXIT_FAILURE ∧ ¬ block_aligned (_nnueStack t))
      (Z.to_nat STACK_SIZE) 0%nat tt m) as Hrule
  end.
  change (Z.of_nat 0) with 0 in Hrule.
  assert (Hfinal := λ H0, Hrule (conj eq_refl H0)). clear Hrule.
  match type of Hfinal with ?P → ?Q → _ =>
    assert (H0 : P) by (intros; lia); assert (Hbody : Q)
  end.
  { intros j [] s [_ Hj] [-> Hprev]. cbn in Hj.
    erewrite bind_Done; [|by apply fmap_Done; eapply load_thread_at].
    case_bool_decide as Hmis; cbn.
    - split; [done|]. intros Hal. apply Hmis, Hal. lia.
    - split; [done|]. intros j' Hj'.
      destruct (decide (j' = Z.of_nat j)) as [->|]; [|apply Hprev; lia].
      by destruct (decide (addr_accumulation (_nnueStack t) (Z.of_nat j) `mod` 64 = 0)). }
  specialize (Hfinal H0 Hbody).
  destruct (fold_from 0 _ _ tt m) as [[] m'| |]; [|done..].
  destruct Hfinal as [-> Hall]. split; [done|]. intros j Hj. apply Hall. lia.
Qed.


Lemma tail_drop {A} (l : list A) k : tail (drop k l) = drop (S k) l.
Proof. revert l. induction k as [|k IH]; intros [|x l]; cbn; auto. Qed.

Lemma head_drop {A} (l : list A) k : head (drop k l) = l !! k.
Proof. by rewrite head_lookup, lookup_drop, Nat.add_0_r. Qed.

Lemma created_pool_focus threads n rest k N :
  (k < N)%nat →
  (created_pool threads n rest k ++ replicate (N - k) Thread_zero) !! k = Some Thread_zero.
Proof.
  intros Hk. unfold created_pool.
  rewrite lookup_app_r; rewrite length_fmap, length_seq; [|done].
  rewrite lookup_replicate. split; [done|lia].
Qed.

Lemma created_pool_step threads n rest k N :
  (k < N)%nat →
  <[k := created threads n (Z.of_nat k) (alloc_result rest (Z.of_nat k))]>
    (created_pool threads n rest k ++ replicate (N - k) Thread_zero)
  = created_pool threads n rest (S k) ++ replicate (N - S k) Thread_zero.
Proof.
  intros Hk. unfold created_pool.
  rewrite seq_S, fmap_app, <- assoc_L by apply _. cbn [fmap list_fmap app Nat.add].
  rewrite insert_app_r_alt; rewrite length_fmap, length_seq; [|done].
  rewrite Nat.sub_diag. replace (N - k)%nat with (S (N - S k)) by lia. done.
Qed.

Lemma created_pool_length threads n rest k N :
  (k ≤ N)%nat →
  length (created_pool threads n rest k ++ replicate (N - k) Thread_zero) = N.
Proof.
  intros Hk. unfold created_pool.
  rewrite length_app, length_fmap, length_seq, length_replicate. lia.
Qed.

(** One pass of the outer loop of [createThreadPool]. *)
Lemma create_body_outcome threads n k arr blocks rest m :
  (k < length arr)%nat →
  let base := default NULL (head rest) in
  match (store_thread threads (Z.of_nat k)
           (set_evalStack (addr__evalStack threads (Z.of_nat k) STACK_OFFSET));;
         store_thread threads (Z.of_nat k)
           (set_moveStack (addr__moveStack threads (Z.of_nat k) STACK_OFFSET));;
         store_thread threads (Z.of_nat k)
           (set_pieceStack (addr__pieceStack threads (Z.of_nat k) STACK_OFFSET));;
         base0 ← _nnueStack <$> load_thread threads (Z.of_nat k);
         store_thread threads (Z.of_nat k) (set_nnueStack (addr__nnueStack base0 STACK_OFFSET));;
         store_thread threads (Z.of_nat k) (set_index (Z.of_nat k));;
         store_thread threads (Z.of_nat k) (set_threads threads);;
         store_thread threads (Z.of_nat k) (set_nthreads n);;
         mem ← ethereal_alloc (sizeof_NNUEStack * STACK_SIZE) 64;
         store_thread threads (Z.of_nat k) (set__nnueStack mem);;
         base ← _nnueStack <$> load_thread threads (Z.of_nat k);
         store_thread threads (Z.of_nat k) (set_nnueStack (addr__nnueStack base STACK_OFFSET));;
         for_loop STACK_SIZE (λ j,
           base ← _nnueStack <$> load_thread threads (Z.of_nat k);
           if bool_decide (addr_accumulation base j `mod` 64 ≠ 0)
           then exit EXIT_FAILURE
           else mret tt))
        (put_pool threads (<[k := Thread_zero]> arr)
           (set_nnue_blocks blocks (set_allocator rest m))) with
  | Done _ m' =>
      m' = put_pool threads (<[k := created threads n (Z.of_nat k) base]> arr)
             (set_nnue_blocks (install_block (junk m) blocks base)
                (set_allocator (tail rest) m)) ∧
      block_aligned base
  | Exit c => c = EXIT_FAILURE ∧ ¬ block_aligned base
  | Fault => False
  end.
Proof.
  intros Hk base.
  do 3 (rewrite store_thread_step by done).
  rewrite load_thread_step by done.
  do 4 (rewrite store_thread_step by done).
  rewrite ethereal_alloc_step. fold base.
  rewrite store_thread_step by done.
  rewrite load_thread_step by done.
  rewrite store_thread_step by done.
  match goal with |- match _ (put_pool _ (<[_ := ?T]> _) ?s) with _ => _ end =>
    pose proof (alignment_loop_outcome threads k (<[k := T]> arr) T
                  (put_pool threads (<[k := T]> arr) s)
                  (list_lookup_insert_eq _ _ _ Hk)
                  (thread_arrays_put_pool _ _ _)) as Hloop
  end.
  cbv beta in Hloop.
  match type of Hloop with match ?c1 with _ => _ end =>
    match goal with |- match ?c2 with _ => _ end => change c2 with c1 end
  end.
  destruct (for_loop _ _ _) as [[] m'| |]; [|done..].
  destruct Hloop as [-> Hal]. split; [|done]. reflexivity.
Qed.

Lemma calloc_run n a rest m :
  allocator m = a :: rest → a ≠ NULL → 0 ≤ n →
  calloc n m = Done a (put_pool a (replicate (Z.to_nat n) Thread_zero) (set_allocator rest m)).
Proof.
  intros Halloc Ha Hn. unfold calloc, next_address. rewrite bind_outcome, Halloc.
  cbn [head tail default]. by rewrite bool_decide_eq_false_2 by (intros [?|?]; [done|lia]).
Qed.

(** [createThreadPool] either returns the pool it has built, every block
    having passed the test, or exits because some block failed it. *)
Lemma createThreadPool_outcome n a rest m :
  allocator m = a :: rest → a ≠ NULL → 0 ≤ n →
  match createThreadPool n m with
  | Done p m' =>
      p = a ∧ m' = created_machine a n rest (Z.to_nat n) m ∧
      ∀ i, 0 ≤ i < n → block_aligned (alloc_result rest i)
  | Exit c =>
      c = EXIT_FAILURE ∧ ∃ i, 0 ≤ i < n ∧ ¬ block_aligned (alloc_result rest i)
  | Fault => False
  end.
Proof.
  intros Halloc Ha Hn. unfold createThreadPool.
  erewrite bind_Done by by apply calloc_run.
  rewrite bind_outcome. unfold for_loop.
  match goal with |- match match fold_from 0 _ ?body _ ?s1 with _ => _ end with _ => _ end =>
    pose proof (fold_from_rule body
      (λ k _ s, s = created_machine a n rest k m ∧
                ∀ i, 0 ≤ i < Z.of_nat k → block_aligned (alloc_result rest i))
      (λ c, c = EXIT_FAILURE ∧ ∃ i, 0 ≤ i < n ∧ ¬ block_aligned (alloc_result rest i))
      (Z.to_nat n) 0%nat tt s1) as Hrule
  end.
  change (Z.of_nat 0) with 0 in Hrule.
  match type of Hrule with ?P → ?Q → _ =>
    assert (H0 : P); [|assert (Hbody : Q)]
  end.
  { split; [|intros; lia].
    unfold created_machine, created_pool. cbn [seq fmap list_fmap app foldl].
    by rewrite Nat.sub_0_r, drop_0. }
  { intros k [] s [_ Hk] [-> Hprev]. cbn in Hk.
    unfold created_machine.
    set (arr := created_pool a n rest k ++ replicate (Z.to_nat n - k) Thread_zero).
    assert (Hlen : (k < length arr)%nat)
      by (unfold arr; rewrite created_pool_length; lia).
    rewrite <- (list_insert_id arr k Thread_zero) by by apply created_pool_focus.
    pose proof (create_body_outcome a n k arr
      (foldl (install_block (junk m)) (nnue_blocks m)
             ((λ i : nat, alloc_result rest (Z.of_nat i)) <$> seq 0 k))
      (drop k rest) m Hlen) as Hstep.
    cbv zeta in Hstep. rewrite head_drop, tail_drop in Hstep.
    change (default NULL (rest !! k)) with (default NULL (rest !! k)) in Hstep.
    assert (Hbase : default NULL (rest !! k) = alloc_result rest (Z.of_nat k))
      by (unfold alloc_result; by rewrite Nat2Z.id).
    rewrite Hbase in Hstep.
    match type of Hstep with match ?c1 with _ => _ end =>
      match goal with |- match ?c2 with _ => _ end => change c2 with c1 end;
      destruct c1 as [[] m'| |]
    end; [|destruct Hstep as [-> Hmis]; split; [done|];
           exists (Z.of_nat k); split; [lia|done]|done].
    destruct Hstep as [-> Hal]. split.
    - unfold arr. rewrite created_pool_step by lia.
      rewrite seq_S, fmap_app, foldl_app. done.
    - intros i Hi. destruct (decide (i = Z.of_nat k)) as [->|]; [done|].
      apply Hprev. lia. }
  specialize (Hrule H0 Hbody).
  destruct (fold_from 0 _ _ tt _) as [[] m'| |]; [|done..].
  destruct Hrule as [-> Hal]. split; [done|]. split; [done|].
  intros i Hi. apply Hal. lia.
Qed.

End create_proofs.

(** ** The sample machine *)

Lemma sample_pool_live : pool_live sample_machine sample_threads sample_pool.
Proof.
  split; [by vm_compute|].
  eexists. split; [by vm_compute|]. by vm_compute.
Qed.

Lemma sample_frames_live : frames_live sample_machine sample_pool.
Proof.
  intros i t Ht.
  destruct i as [|[|[|[|i]]]]; vm_compute in Ht; [| | | |done];
    injection Ht as <-; eexists; (split; [by vm_compute|by vm_compute]).
Qed.

Lemma sample_frames_owned : frames_owned sample_pool.
Proof.
  split.
  - intros i t Ht.
    destruct i as [|[|[|[|i]]]]; vm_compute in Ht; [| | | |done];
      injection Ht as <-; by vm_compute.
  - apply (bool_decide_unpack _). by vm_compute.
Qed.

Lemma sample_packs_pairs : packs_pairs.
Proof.
  intros mg eg Hmg Heg. cbn [MakeScore ScoreMG ScoreEG sample_config].
  unfold packed_ScoreMG, packed_ScoreEG, packed_MakeScore, int_neg, int_add,
    sint32, sint16, uint32.
  rewrite !Z.shiftr_div_pow2, !Z.shiftl_mul_pow2 by lia.
  change (2 ^ 16) with 65536. change (2 ^ 32) with 4294967296.
  change (2 ^ 31) with 2147483648. change (2 ^ 15) with 32768.
  repeat split; Z.to_euclidean_division_equations; lia.
Qed.

(** ** Search-start initialisation, reset and aggregation *)

Section pool_theorems.
Context {cfg : Config}.

Lemma memset_zero_all_zero x : all_zero (memset_zero x).
Proof. unfold all_zero, memset_zero. by apply Forall_replicate. Qed.

Lemma memset_zero_idem x : memset_zero (memset_zero x) = memset_zero x.
Proof. unfold memset_zero. by rewrite length_replicate. Qed.

Lemma cleared_tables t : Forall all_zero (tables (cleared t)).
Proof. unfold tables. cbn. repeat constructor; apply memset_zero_all_zero. Qed.

Lemma cleared_idem t : cleared (cleared t) = cleared t.
Proof. destruct t. cbv -[memset_zero]. by rewrite !memset_zero_idem. Qed.

Lemma pool_live_fmap m threads pool (f : Thread → Thread) m' :
  pool_live m threads pool →
  (∀ t, nthreads (f t) = nthreads t) →
  thread_arrays m' !! threads = Some (f <$> pool) →
  pool_live m' threads (f <$> pool).
Proof.
  intros (_ & t0 & Ht0 & Hn) Hf Hm'. split; [done|].
  exists (f t0). split; [by rewrite list_lookup_fmap, Ht0|].
  by rewrite Hf, length_fmap.
Qed.

(** C1. After [newSearchThreadPool] has run on a pool, whatever the
    threads held before, every thread has [nodes = 0], [tbhits = 0] and
    [height = 0], and [computedAccumulation] is 0 in each of the
    [STACK_SIZE] frames of its accumulator stack. *)
Theorem newSearchThreadPool_resets m threads pool b lim inf :
  pool_live m threads pool → frames_live m pool →
  ∃ m' pool',
    newSearchThreadPool threads b lim inf m = Done tt m' ∧
    thread_arrays m' !! threads = Some pool' ∧
    length pool' = length pool ∧
    ∀ i t', pool' !! i = Some t' →
      nodes t' = 0 ∧ tbhits t' = 0 ∧ height t' = 0 ∧
      ∃ frames, nnue_blocks m' !! _nnueStack t' = Some frames ∧
                Z.of_nat (length frames) = STACK_SIZE ∧
                ∀ j fr, frames !! j = Some fr →
                        computedAccumulation (accumulator fr) = 0.
Proof.
  intros Hlive Hframes. eexists _, _. split; [by apply newSearchThreadPool_run|].
  split; [apply thread_arrays_put_pool|]. split; [by rewrite length_fmap|].
  intros i t' Ht'. apply list_lookup_fmap_Some_1 in Ht' as (t & -> & Ht).
  do 3 (split; [done|]).
  destruct (Hframes i t Ht) as (frames & Hfr & Hlen).
  exists (stale <$> frames). cbn. rewrite stale_blocks_lookup, Hfr.
  rewrite decide_True by (apply list_elem_of_fmap; exists t; split; [done|];
                            by eapply list_elem_of_lookup_2).
  split; [done|]. split; [by rewrite length_fmap|].
  intros j fr Hj. by apply list_lookup_fmap_Some_1 in Hj as (fr0 & -> & _).
Qed.

(** C3. On a pool at rest, [nodesSearchedThreadPool] returns the sum of
    the threads' [nodes] and [tbhitsThreadPool] the sum of their [tbhits],
    both reduced modulo [2^64], and each leaves the machine state as it
    found it. *)
Theorem aggregators_sum m threads pool :
  pool_live m threads pool →
  nodesSearchedThreadPool threads m
    = Done (uint64 (foldr Z.add 0 (nodes <$> pool))) m ∧
  tbhitsThreadPool threads m
    = Done (uint64 (foldr Z.add 0 (tbhits <$> pool))) m.
Proof.
  intros Hlive. split.
  - by apply nodesSearchedThreadPool_run.
  - by apply tbhitsThreadPool_run.
Qed.

(** C4. With [ContemptDrawPenalty = 20] and [ContemptComplexity = 5],
    the contempt stored in every thread unpacks to the terms 25 and 20
    when the side to move is not [BLACK], and to -25 and -20 when it is
    [BLACK]: the packed score is negated as one value. *)
Theorem contempt_sign m threads pool b lim inf :
  packs_pairs →
  pool_live m threads pool → frames_live m pool →
  ContemptDrawPenalty m = 20 → ContemptComplexity m = 5 →
  ∃ m' pool',
    newSearchThreadPool threads b lim inf m = Done tt m' ∧
    thread_arrays m' !! threads = Some pool' ∧
    length pool' = length pool ∧
    ∀ i t', pool' !! i = Some t' →
      (turn b ≠ BLACK → ScoreMG (contempt t') = 25 ∧ ScoreEG (contempt t') = 20) ∧
      (turn b = BLACK → ScoreMG (contempt t') = -25 ∧ ScoreEG (contempt t') = -20).
Proof.
  intros Hpack Hlive Hframes Hdp Hcc.
  eexists _, _. split; [by apply newSearchThreadPool_run|].
  split; [apply thread_arrays_put_pool|]. split; [by rewrite length_fmap|].
  intros i t' Ht'. apply list_lookup_fmap_Some_1 in Ht' as (t & -> & Ht).
  cbn [contempt started set_board_st set_board set_tbhits set_nodes set_height set_contempt].
  unfold search_contempt. rewrite Hdp, Hcc.
  change (int_add 20 5) with 25.
  destruct (Hpack 25 20 ltac:(lia) ltac:(lia)) as [Hpos Hneg].
  split; intros Hturn.
  - by rewrite bool_decide_eq_false_2.
  - by rewrite bool_decide_eq_true_2.
Qed.

(** C5. [resetThreadPool] leaves every byte of the seven tables of every
    thread at zero, and a second call made at once returns the very state
    the first call produced. *)
Theorem resetThreadPool_idempotent m threads pool :
  pool_live m threads pool →
  ∃ m' pool',
    resetThreadPool threads m = Done tt m' ∧
    thread_arrays m' !! threads = Some pool' ∧
    length pool' = length pool ∧
    (∀ i t', pool' !! i = Some t' → Forall all_zero (tables t')) ∧
    resetThreadPool threads m' = Done tt m'.
Proof.
  intros Hlive. eexists _, _. split; [by apply resetThreadPool_run|].
  split; [apply thread_arrays_put_pool|]. split; [by rewrite length_fmap|]. split.
  - intros i t' Ht'. apply list_lookup_fmap_Some_1 in Ht' as (t & -> & Ht).
    apply cleared_tables.
  - erewrite resetThreadPool_run; last first.
    { apply (pool_live_fmap m threads pool cleared); [done|done|].
      apply thread_arrays_put_pool. }
    rewrite put_pool_put_pool. do 2 f_equal.
    rewrite <- list_fmap_compose. apply list_fmap_ext. intros _ t _. apply cleared_idem.
Qed.

(** C6. [newSearchThreadPool] returns with the seven tables of every
    thread as they were, and so do the two aggregators, which change
    nothing at all; [resetThreadPool] is the operation that zeroes them. *)
Theorem tables_cleared_only_by_reset m threads pool b lim inf :
  pool_live m threads pool → frames_live m pool →
  (∃ m' pool',
     newSearchThreadPool threads b lim inf m = Done tt m' ∧
     thread_arrays m' !! threads = Some pool' ∧
     length pool' = length pool ∧
     ∀ i t t', pool !! i = Some t → pool' !! i = Some t' → tables t' = tables t) ∧
  (∃ total, nodesSearchedThreadPool threads m = Done total m) ∧
  (∃ total, tbhitsThreadPool threads m = Done total m) ∧
  (∃ m' pool',
     resetThreadPool threads m = Done tt m' ∧
     thread_arrays m' !! threads = Some pool' ∧
     ∀ i t t', pool !! i = Some t → pool' !! i = Some t' →
       tables t' = memset_zero <$> tables t).
Proof.
  intros Hlive Hframes. split; [|split; [|split]].
  - eexists _, _. split; [by apply newSearchThreadPool_run|].
    split; [apply thread_arrays_put_pool|]. split; [by rewrite length_fmap|].
    intros i t t' Ht Ht'. rewrite list_lookup_fmap, Ht in Ht'. by injection Ht' as <-.
  - eexists. by apply nodesSearchedThreadPool_run.
  - eexists. by apply tbhitsThreadPool_run.
  - eexists _, _. split; [by apply resetThreadPool_run|].
    split; [apply thread_arrays_put_pool|].
    intros i t t' Ht Ht'. rewrite list_lookup_fmap, Ht in Ht'. by injection Ht' as <-.
Qed.

(** C10. After [newSearchThreadPool], all threads hold the one contempt
    computed from the given board, the given [limits] and [info]
    pointers, and a copy of the given board in which only [st] differs:
    it is the thread's own [nnueStack].  In a pool whose threads own
    their blocks, the [st] of two different threads are different. *)
Theorem newSearchThreadPool_shares m threads pool b lim inf :
  pool_live m threads pool → frames_live m pool →
  ∃ m' pool',
    newSearchThreadPool threads b lim inf m = Done tt m' ∧
    thread_arrays m' !! threads = Some pool' ∧
    length pool' = length pool ∧
    (∀ i t t', pool !! i = Some t → pool' !! i = Some t' →
       contempt t' = search_contempt m b ∧ limits t' = lim ∧ info t' = inf ∧
       board t' = set_st (nnueStack t') b ∧
       nnueStack t' = nnueStack t ∧ _nnueStack t' = _nnueStack t) ∧
    (frames_owned pool →
     ∀ i j ti tj, i ≠ j → pool' !! i = Some ti → pool' !! j = Some tj →
       st (board ti) = addr__nnueStack (_nnueStack ti) STACK_OFFSET ∧
       st (board ti) ≠ st (board tj)).
Proof.
  intros Hlive Hframes. eexists _, _. split; [by apply newSearchThreadPool_run|].
  split; [apply thread_arrays_put_pool|]. split; [by rewrite length_fmap|]. split.
  - intros i t t' Ht Ht'. rewrite list_lookup_fmap, Ht in Ht'. by injection Ht' as <-.
  - intros [Hbound Hnodup] i j ti tj Hij Hi Hj.
    apply list_lookup_fmap_Some_1 in Hi as (t1 & -> & Ht1).
    apply list_lookup_fmap_Some_1 in Hj as (t2 & -> & Ht2).
    cbn. rewrite (Hbound i t1 Ht1), (Hbound j t2 Ht2). split; [done|].
    unfold addr__nnueStack. intros Heq.
    assert (_nnueStack t1 = _nnueStack t2) as Hbase by lia.
    apply Hij. eapply NoDup_lookup; [apply Hnodup| |].
    + by rewrite list_lookup_fmap, Ht1.
    + rewrite list_lookup_fmap, Ht2. cbn. by rewrite Hbase.
Qed.

End pool_theorems.

(** ** Pool creation *)

Section create_theorems.
Context {cfg : Config}.

Lemma created_machine_pool a n rest m :
  thread_arrays (created_machine a n rest (Z.to_nat n) m) !! a
  = Some (created_pool a n rest (Z.to_nat n)).
Proof.
  unfold created_machine. rewrite thread_arrays_put_pool, Nat.sub_diag. cbn.
  by rewrite app_nil_r.
Qed.

Lemma created_pool_lookup a n rest N i t :
  created_pool a n rest N !! i = Some t →
  (i < N)%nat ∧ t = created a n (Z.of_nat i) (alloc_result rest (Z.of_nat i)).
Proof.
  unfold created_pool. intros (j & -> & Hj)%list_lookup_fmap_Some_1.
  apply lookup_seq in Hj as [-> Hlt]. done.
Qed.

Lemma created_pool_size a n rest N : length (created_pool a n rest N) = N.
Proof. unfold created_pool. by rewrite length_fmap, length_seq. Qed.

Lemma install_blocks_lookup junk bases : ∀ blocks base,
  base ≠ NULL →
  blocks !! base = Some (fresh_block junk base (sizeof_NNUEStack * STACK_SIZE)) ∨ base ∈ bases →
  foldl (install_block junk) blocks bases !! base
  = Some (fresh_block junk base (sizeof_NNUEStack * STACK_SIZE)).
Proof.
  induction bases as [|b bases IH]; intros blocks base Hbase Hin; cbn.
  - destruct Hin as [?|Hin]; [done|]. by apply elem_of_nil in Hin.
  - apply IH; [done|]. unfold install_block.
    destruct Hin as [Hblk|[->|Hin]%elem_of_cons].
    + left. case_bool_decide; [done|].
      destruct (decide (b = base)) as [->|]; [apply lookup_insert_eq|].
      by rewrite lookup_insert_ne.
    + left. rewrite bool_decide_eq_false_2 by done. apply lookup_insert_eq.
    + by right.
Qed.

Lemma fresh_block_length junk base :
  0 < sizeof_NNUEStack → 0 ≤ STACK_SIZE →
  Z.of_nat (length (fresh_block junk base (sizeof_NNUEStack * STACK_SIZE))) = STACK_SIZE.
Proof.
  intros Hsz Hn. unfold fresh_block. rewrite length_fmap, length_seqZ.
  rewrite Z.mul_comm, Z.div_mul by lia. lia.
Qed.

Lemma created_machine_block a n rest m i :
  0 ≤ i < n → alloc_result rest i ≠ NULL →
  nnue_blocks (created_machine a n rest (Z.to_nat n) m) !! alloc_result rest i
  = Some (fresh_block (junk m) (alloc_result rest i) (sizeof_NNUEStack * STACK_SIZE)).
Proof.
  intros Hi Hbase. unfold created_machine. cbn.
  apply install_blocks_lookup; [done|]. right.
  apply list_elem_of_fmap. exists (Z.to_nat i). rewrite Z2Nat.id by lia.
  split; [done|]. apply elem_of_seq. lia.
Qed.

(** Alignment of the block base carries over to every frame when the
    layout of [NNUEStack] keeps multiples of 64. *)
Lemma aligned_layout base :
  sizeof_NNUEStack `mod` 64 = 0 → offsetof_accumulation `mod` 64 = 0 →
  base `mod` 64 = 0 → block_aligned base.
Proof.
  intros Hsz Hoff Hbase j _. unfold addr_accumulation, addr__nnueStack.
  apply Z.mod_divide in Hsz as [s Hs]; [|done].
  apply Z.mod_divide in Hoff as [o Ho]; [|done].
  apply Z.mod_divide in Hbase as [b Hb]; [|done].
  apply Z.mod_divide; [done|]. exists (b + j * s + o). lia.
Qed.

Lemma created_pool_bases a n rest N :
  (N ≤ length rest)%nat →
  _nnueStack <$> created_pool a n rest N = take N rest.
Proof.
  intros HN. apply list_eq. intros i. unfold created_pool.
  rewrite <- list_fmap_compose, list_lookup_fmap.
  destruct (decide (i < N)%nat) as [Hi|Hi].
  - rewrite lookup_seq_lt, lookup_take_lt by done. cbn. unfold alloc_result.
    rewrite Nat2Z.id. by destruct (lookup_lt_is_Some_2 rest i ltac:(lia)) as [b ->].
  - by rewrite lookup_seq_ge, lookup_take_ge by lia.
Qed.

(** With an allocator that serves [calloc] and then [n] distinct blocks
    that pass the alignment test, [createThreadPool] returns a pool that
    is live, whose frames are live, and whose threads own their frames. *)
Lemma createThreadPool_builds n a rest m :
  1 ≤ n → allocator m = a :: rest → a ≠ NULL →
  (Z.to_nat n ≤ length rest)%nat →
  NoDup (take (Z.to_nat n) rest) →
  Forall (λ base, base ≠ NULL ∧ block_aligned base) (take (Z.to_nat n) rest) →
  0 < sizeof_NNUEStack → 0 ≤ STACK_SIZE →
  ∃ m' pool,
    createThreadPool n m = Done a m' ∧
    pool_live m' a pool ∧ frames_live m' pool ∧ frames_owned pool.
Proof.
  intros Hn Halloc Ha Hlen Hnodup Hserved Hsz Hcap.
  assert (Hres : ∀ i, (i < Z.to_nat n)%nat →
            alloc_result rest (Z.of_nat i) ≠ NULL ∧
            block_aligned (alloc_result rest (Z.of_nat i))).
  { intros i Hi. rewrite Forall_lookup in Hserved. apply (Hserved i).
    rewrite lookup_take_lt by done. unfold alloc_result. rewrite Nat2Z.id.
    by destruct (lookup_lt_is_Some_2 rest i ltac:(lia)) as [b ->]. }
  pose proof (createThreadPool_outcome n a rest m Halloc Ha ltac:(lia)) as Hout.
  destruct (createThreadPool n m) as [p m'|c|]; [| |done].
  - destruct Hout as (-> & -> & _).
    exists (created_machine a n rest (Z.to_nat n) m), (created_pool a n rest (Z.to_nat n)).
    split; [done|]. split; [|split; [|split]].
    + split; [apply created_machine_pool|].
      exists (created a n 0 (alloc_result rest 0)). split.
      * unfold created_pool. rewrite list_lookup_fmap, lookup_seq_lt by lia. done.
      * rewrite created_pool_size. cbn. lia.
    + intros i t Ht. apply created_pool_lookup in Ht as [Hi ->].
      destruct (Hres i Hi) as [Hbase _].
      eexists. split; [apply created_machine_block; [lia|done]|].
      by apply fresh_block_length.
    + intros i t Ht. by apply created_pool_lookup in Ht as [Hi ->].
    + by rewrite created_pool_bases.
  - destruct Hout as (_ & i & Hi & Hmis). destruct Hmis.
    replace i with (Z.of_nat (Z.to_nat i)) by lia. apply Hres. lia.
Qed.

(** C2. When [createThreadPool] returns, the address of
    [accumulator.accumulation] is a multiple of 64 in every frame of every
    thread; when some frame fails the test the process exits with
    [EXIT_FAILURE]; and with an allocator that returns multiples of the
    requested 64 and a layout that keeps them, it does return. *)
Theorem createThreadPool_alignment n a rest m :
  1 ≤ n → allocator m = a :: rest → a ≠ NULL →
  (∀ p m', createThreadPool n m = Done p m' →
     ∃ pool, thread_arrays m' !! p = Some pool ∧ Z.of_nat (length pool) = n ∧
       ∀ i t j, pool !! i = Some t → 0 ≤ j < STACK_SIZE →
         addr_accumulation (_nnueStack t) j `mod` 64 = 0) ∧
  ((∃ i j, 0 ≤ i < n ∧ 0 ≤ j < STACK_SIZE ∧
           addr_accumulation (alloc_result rest i) j `mod` 64 ≠ 0) →
   createThreadPool n m = Exit EXIT_FAILURE) ∧
  ((∀ i, 0 ≤ i < n → alloc_result rest i `mod` 64 = 0) →
   sizeof_NNUEStack `mod` 64 = 0 → offsetof_accumulation `mod` 64 = 0 →
   ∃ m', createThreadPool n m = Done a m').
Proof.
  intros Hn Halloc Ha.
  pose proof (createThreadPool_outcome n a rest m Halloc Ha ltac:(lia)) as Hout.
  split; [|split].
  - intros p m' Hrun. rewrite Hrun in Hout. destruct Hout as (-> & -> & Hal).
    exists (created_pool a n rest (Z.to_nat n)).
    split; [apply created_machine_pool|]. split; [rewrite created_pool_size; lia|].
    intros i t j Ht Hj. apply created_pool_lookup in Ht as [Hi ->].
    apply (Hal (Z.of_nat i)); [lia|done].
  - intros (i & j & Hi & Hj & Hmis).
    destruct (createThreadPool n m) as [p m'|c|]; [|by destruct Hout as [-> _]|done].
    destruct Hout as (_ & _ & Hal). destruct Hmis. by apply Hal.
  - intros Hbases Hsz Hoff.
    destruct (createThreadPool n m) as [p m'|c|]; [|exfalso|done].
    + destruct Hout as (-> & _). by eexists.
    + destruct Hout as (_ & i & Hi & Hmis). apply Hmis.
      apply aligned_layout; [done..|]. by apply Hbases.
Qed.

(** C7. In the pool [createThreadPool] returns, [evalStack],
    [moveStack], [pieceStack] and [nnueStack] of every thread point
    [STACK_OFFSET] elements past the start of [_evalStack], [_moveStack],
    [_pieceStack] and of the block at [_nnueStack]; hence, as soon as
    [1 <= STACK_OFFSET], index -1 through each of them is an element of
    the array behind it, other than the one at index 0. *)
Theorem createThreadPool_stacks n a rest m :
  1 ≤ n → allocator m = a :: rest → a ≠ NULL →
  (∀ i, 0 ≤ i < n → alloc_result rest i ≠ NULL ∧ block_aligned (alloc_result rest i)) →
  1 ≤ STACK_OFFSET → STACK_OFFSET < STACK_SIZE →
  0 < sizeof_evalStack_elt → 0 < sizeof_moveStack_elt → 0 < sizeof_pieceStack_elt →
  0 < sizeof_NNUEStack →
  ∃ m' pool,
    createThreadPool n m = Done a m' ∧
    thread_arrays m' !! a = Some pool ∧ Z.of_nat (length pool) = n ∧
    ∀ i t, pool !! i = Some t →
      looks_back (addr__evalStack a (Z.of_nat i) 0) sizeof_evalStack_elt
                 (Z.of_nat (length (_evalStack t))) (evalStack t) ∧
      looks_back (addr__moveStack a (Z.of_nat i) 0) sizeof_moveStack_elt
                 (Z.of_nat (length (_moveStack t))) (moveStack t) ∧
      looks_back (addr__pieceStack a (Z.of_nat i) 0) sizeof_pieceStack_elt
                 (Z.of_nat (length (_pieceStack t))) (pieceStack t) ∧
      ∃ frames, nnue_blocks m' !! _nnueStack t = Some frames ∧
                looks_back (_nnueStack t) sizeof_NNUEStack
                           (Z.of_nat (length frames)) (nnueStack t).
Proof.
  intros Hn Halloc Ha Hserved Hoff Hcap He Hm Hp Hf.
  pose proof (createThreadPool_outcome n a rest m Halloc Ha ltac:(lia)) as Hout.
  destruct (createThreadPool n m) as [p m'|c|]; [| |done].
  - destruct Hout as (-> & -> & _).
    exists (created_machine a n rest (Z.to_nat n) m), (created_pool a n rest (Z.to_nat n)).
    split; [done|]. split; [apply created_machine_pool|].
    split; [rewrite created_pool_size; lia|].
    intros i t Ht. apply created_pool_lookup in Ht as [Hi ->].
    destruct (Hserved (Z.of_nat i) ltac:(lia)) as [Hbase _].
    assert (Hlen : Z.of_nat (length (replicate (Z.to_nat STACK_SIZE) 0)) = STACK_SIZE)
      by (rewrite length_replicate; lia).
    split; [|split; [|split]].
    + cbn [_evalStack evalStack created set_nnueStack set__nnueStack set_nthreads
             set_threads set_index set_pieceStack set_moveStack set_evalStack Thread_zero].
      rewrite Hlen. unfold looks_back, addr__evalStack. repeat split; lia.
    + cbn [_moveStack moveStack created set_nnueStack set__nnueStack set_nthreads
             set_threads set_index set_pieceStack set_moveStack set_evalStack Thread_zero].
      rewrite Hlen. unfold looks_back, addr__moveStack. repeat split; lia.
    + cbn [_pieceStack pieceStack created set_nnueStack set__nnueStack set_nthreads
             set_threads set_index set_pieceStack set_moveStack set_evalStack Thread_zero].
      rewrite Hlen. unfold looks_back, addr__pieceStack. repeat split; lia.
    + eexists. split; [apply created_machine_block; [lia|done]|].
      rewrite fresh_block_length by lia.
      cbn [_nnueStack nnueStack created set_nnueStack set__nnueStack].
      unfold looks_back, addr__nnueStack. repeat split; lia.
  - destruct Hout as (_ & i & Hi & Hmis). destruct Hmis. by apply Hserved.
Qed.

End create_theorems.

(** ** Mapped files *)

Lemma lor_halves n :
  0 ≤ n < 2 ^ 64 →
  Z.lor (Z.shiftl ((n `div` 2 ^ 32) `mod` 2 ^ 32) 32) (n `mod` 2 ^ 32) = n.
Proof.
  intros Hn.
  assert (0 ≤ n `div` 2 ^ 32 < 2 ^ 32) as Hhigh
    by (split; [apply Z.div_pos|apply Z.div_lt_upper_bound]; lia).
  rewrite (Z.mod_small (n `div` 2 ^ 32)) by done.
  rewrite <- Z.lxor_lor, <- Z.add_nocarry_lxor.
  - rewrite Z.shiftl_mul_pow2 by lia. pose proof (Z.div_mod n (2 ^ 32)). lia.
  - apply Z.bits_inj'. intros i Hi. rewrite Z.land_spec, Z.bits_0.
    destruct (decide (i < 32)).
    + by rewrite Z.shiftl_spec_low.
    + rewrite (Z.mod_pow2_bits_high n 32 i) by lia. apply andb_false_r.
  - apply Z.bits_inj'. intros i Hi. rewrite Z.land_spec, Z.bits_0.
    destruct (decide (i < 32)).
    + by rewrite Z.shiftl_spec_low.
    + rewrite (Z.mod_pow2_bits_high n 32 i) by lia. apply andb_false_r.
Qed.

Lemma take_length {A} (l : list A) : take (Z.to_nat (Z.of_nat (length l))) l = l.
Proof. by rewrite Nat2Z.id, firstn_all. Qed.

(** What [map_file] returns on a descriptor that is open on [bytes]. *)
Lemma map_file_posix_run fd s bytes :
  open_files s !! fd = Some bytes →
  let a := default 0 (head (kernel s)) in
  map_file POSIX fd s =
    if bool_decide (bytes = []) then Done (NULL, 0) s
    else if bool_decide (a = 0 ∨ a = MAP_FAILED ∨ is_Some (views s !! a))
         then Done (NULL, Z.of_nat (length bytes)) (set_kernel (tail (kernel s)) s)
         else Done (a, Z.of_nat (length bytes))
                   (set_views (<[a := bytes]> (views s)) (set_kernel (tail (kernel s)) s)).
Proof.
  intros Hopen a. unfold map_file, file_size, fstat_st_size, mmap, madvise, kernel_pick.
  rewrite !bind_outcome. rewrite Hopen. cbn [gets]. rewrite !bind_outcome. cbn [gets]. rewrite Hopen.
  destruct bytes as [|b bytes].
  - by cbn.
  - rewrite (bool_decide_eq_false_2 (_ :: _ = [])) by done.
    rewrite (bool_decide_eq_false_2 (_ ≤ 0)) by (cbn [length]; lia).
    rewrite !bind_outcome. cbn [gets set_kernel views]. fold a.
    case_bool_decide as Hbad.
    + by cbn.
    + rewrite take_length. unfold mbind, M_bind, modify, mret, M_ret.
      by rewrite bool_decide_eq_false_2 by tauto.
Qed.

Lemma map_file_win32_run fd s bytes :
  open_files s !! fd = Some bytes →
  Z.of_nat (length bytes) < 2 ^ 64 →
  let h := default 0 (head (kernel s)) in
  let a := default 0 (head (tail (kernel s))) in
  map_file WIN32 fd s =
    if bool_decide (bytes = []) then Done (NULL, NULL) s
    else if bool_decide (h = 0 ∨ is_Some (mapping_objects s !! h))
         then Done (NULL, NULL) (set_kernel (tail (kernel s)) s)
         else if bool_decide (a = 0 ∨ is_Some (views s !! a))
              then Done (NULL, h)
                     (set_kernel (tail (tail (kernel s)))
                        (set_mapping_objects (<[h := bytes]> (mapping_objects s)) s))
              else Done (a, h)
                     (set_views (<[a := bytes]> (views s))
                        (set_kernel (tail (tail (kernel s)))
                           (set_mapping_objects (<[h := bytes]> (mapping_objects s)) s))).
Proof.
  intros Hopen Hsize h a.
  unfold map_file, GetFileSize, CreateFileMapping, MapViewOfFile, kernel_pick.
  rewrite !bind_outcome. rewrite Hopen. cbn [gets]. rewrite !bind_outcome. cbn [gets]. rewrite Hopen.
  destruct bytes as [|b bytes].
  - by cbn.
  - rewrite (bool_decide_eq_false_2 (_ :: _ = [])) by done.
    rewrite (bool_decide_eq_false_2 (length _ = 0%nat)) by done.
    rewrite !bind_outcome. cbn [gets set_kernel mapping_objects]. fold h.
    case_bool_decide as Hbad.
    + cbn. done.
    + rewrite lor_halves by lia. rewrite take_length.
      unfold mbind at 1 2. unfold M_bind at 1 2. unfold modify, mret, M_ret.
      rewrite bool_decide_eq_false_2 by tauto.
      rewrite !bind_outcome. cbn [gets set_kernel set_mapping_objects mapping_objects kernel].
      rewrite lookup_insert_eq. rewrite !bind_outcome.
      cbn [gets set_kernel set_mapping_objects mapping_objects kernel views]. fold a.
      case_bool_decide as Hbad'; done.
Qed.


Lemma unmap_file_null tg map s : unmap_file tg NULL map s = Done tt s.
Proof. reflexivity. Qed.

(** What [map_file] has established when it returns a pointer, and what
    [unmap_file] then makes of it. *)
Lemma map_file_established tg fd s bytes data map s1 :
  open_files s !! fd = Some bytes → Z.of_nat (length bytes) < 2 ^ 64 →
  map_file tg fd s = Done (data, map) s1 → data ≠ NULL →
  views s !! data = None ∧ views s1 = <[data := bytes]> (views s) ∧
  open_files s1 = open_files s ∧
  match tg with
  | POSIX => map = Z.of_nat (length bytes) ∧ mapping_objects s1 = mapping_objects s
  | WIN32 => mapping_objects s !! map = None ∧
             mapping_objects s1 = <[map := bytes]> (mapping_objects s)
  end.
Proof.
  intros Hopen Hsize Hrun Hdata. destruct tg.
  - rewrite (map_file_posix_run fd s bytes Hopen) in Hrun. cbv zeta in Hrun.
    repeat case_bool_decide; simplify_eq; try done.
    split; [|done]. apply eq_None_not_Some. tauto.
  - rewrite (map_file_win32_run fd s bytes Hopen Hsize) in Hrun. cbv zeta in Hrun.
    repeat case_bool_decide; simplify_eq; try done.
    split; [apply eq_None_not_Some; tauto|]. split; [done|]. split; [done|].
    split; [apply eq_None_not_Some; tauto|done].
Qed.


Lemma map_file_returns tg fd s bytes :
  open_files s !! fd = Some bytes → Z.of_nat (length bytes) < 2 ^ 64 →
  ∃ data map s1, map_file tg fd s = Done (data, map) s1 ∧ (bytes = [] → data = NULL).
Proof.
  intros Hopen Hsize. destruct tg.
  - rewrite (map_file_posix_run fd s bytes Hopen). cbv zeta.
    repeat case_bool_decide; eexists _, _, _; (split; [done|]); done.
  - rewrite (map_file_win32_run fd s bytes Hopen Hsize). cbv zeta.
    repeat case_bool_decide; eexists _, _, _; (split; [done|]); done.
Qed.

Lemma unmap_file_run tg data map s bytes :
  data ≠ NULL → views s !! data = Some bytes →
  match tg with POSIX => map = Z.of_nat (length bytes) ∧ bytes ≠ [] | WIN32 => True end →
  unmap_file tg data map s
  = Done tt match tg with
            | POSIX => set_views (delete data (views s)) s
            | WIN32 => set_mapping_objects (delete map (mapping_objects s))
                         (set_views (delete data (views s)) s)
            end.
Proof.
  intros Hdata Hview Htg. unfold unmap_file.
  rewrite bool_decide_eq_false_2 by done. destruct tg; [|done].
  destruct Htg as [-> Hne]. unfold munmap.
  rewrite bool_decide_eq_false_2 by (destruct bytes; [done|cbn [length]; lia]).
  rewrite Hview. by rewrite bool_decide_eq_true_2 by lia.
Qed.

(** C8. [unmap_file] on a null pointer returns at once, whatever [map]
    is, and leaves the system as it was.  On a pointer that [map_file]
    returned, with the [map] it stored, it removes the view from the
    address space and, on Windows, closes the mapping object: views and
    mapping objects are again those from before [map_file]. *)
Theorem unmap_file_releases :
  (∀ tg map s, unmap_file tg NULL map s = Done tt s) ∧
  (∀ tg fd s bytes data map s1,
     open_files s !! fd = Some bytes → Z.of_nat (length bytes) < 2 ^ 64 →
     map_file tg fd s = Done (data, map) s1 → data ≠ NULL →
     views s1 !! data = Some bytes ∧
     ∃ s2, unmap_file tg data map s1 = Done tt s2 ∧
           views s2 !! data = None ∧
           views s2 = views s ∧
           mapping_objects s2 = mapping_objects s ∧
           open_files s2 = open_files s).
Proof.
  split; [apply unmap_file_null|].
  intros tg fd s bytes data map s1 Hopen Hsize Hrun Hdata.
  destruct (map_file_returns tg fd s bytes Hopen Hsize) as (d & mp & s' & Hrun' & Hempty).
  rewrite Hrun in Hrun'. injection Hrun' as <- <- <-.
  destruct (map_file_established tg fd s bytes data map s1 Hopen Hsize Hrun Hdata)
    as (Hfree & Hviews & Hfiles & Htg).
  assert (Hview : views s1 !! data = Some bytes) by (rewrite Hviews; apply lookup_insert_eq).
  split; [done|]. eexists. split.
  - apply (unmap_file_run tg data map s1 bytes Hdata Hview).
    destruct tg; [|done]. destruct Htg as [-> _]. split; [done|].
    intros ->. by apply Hdata, Hempty.
  - destruct tg; cbn.
    + destruct Htg as [_ Hobjs]. rewrite Hviews, lookup_delete_eq, delete_insert_id by done.
      done.
    + destruct Htg as [Hnew Hobjs].
      rewrite Hviews, Hobjs, lookup_delete_eq, !delete_insert_id by done. done.
Qed.





(** * Further properties of the pool operations *)

Section pool_extras.
Context {cfg : Config}.

Lemma stale_blocks_idem bases blocks :
  stale_blocks bases (stale_blocks bases blocks) = stale_blocks bases blocks.
Proof.
  apply map_eq. intros base. rewrite !stale_blocks_lookup. case_decide; [|done].
  destruct (blocks !! base) as [frames|]; [|done]. cbn. f_equal.
  rewrite <- list_fmap_compose. by apply list_fmap_ext.
Qed.

Lemma restart_state threads arr1 arr2 blocks1 blocks2 m :
  set_nnue_blocks blocks2 (put_pool threads arr2 (set_nnue_blocks blocks1 (put_pool threads arr1 m)))
  = set_nnue_blocks blocks2 (put_pool threads arr2 m).
Proof. unfold put_pool, set_thread_arrays, set_nnue_blocks. cbn. by rewrite insert_insert_eq. Qed.

Lemma foldr_add_zero (l : list Z) : Forall (λ v, v = 0) l → foldr Z.add 0 l = 0.
Proof. induction 1 as [|x l -> _ IH]; cbn; [done|]. by rewrite IH. Qed.

(** What a completed [newSearchThreadPool] or [resetThreadPool] leaves is
    again a live pool with live, owned frames. *)
Lemma started_pool_ok m threads pool c lim inf b :
  pool_live m threads pool → frames_live m pool →
  let m' := set_nnue_blocks (stale_blocks (_nnueStack <$> pool) (nnue_blocks m))
              (put_pool threads (started c lim inf b <$> pool) m) in
  pool_live m' threads (started c lim inf b <$> pool) ∧
  frames_live m' (started c lim inf b <$> pool) ∧
  (frames_owned pool → frames_owned (started c lim inf b <$> pool)).
Proof.
  intros Hlive Hframes m'. split; [|split].
  - apply (pool_live_fmap m threads pool _ m'); [done|done|]. apply thread_arrays_put_pool.
  - intros i t' (t & -> & Ht)%list_lookup_fmap_Some_1.
    apply (frames_live_stale m pool _ i t Hframes Ht).
  - intros [Hbound Hnodup]. split.
    + intros i t' (t & -> & Ht)%list_lookup_fmap_Some_1. by apply (Hbound i t).
    + rewrite <- list_fmap_compose. done.
Qed.

Lemma cleared_pool_ok m threads pool :
  pool_live m threads pool → frames_live m pool →
  let m' := put_pool threads (cleared <$> pool) m in
  pool_live m' threads (cleared <$> pool) ∧
  frames_live m' (cleared <$> pool) ∧
  (frames_owned pool → frames_owned (cleared <$> pool)).
Proof.
  intros Hlive Hframes m'. split; [|split].
  - apply (pool_live_fmap m threads pool _ m'); [done|done|]. apply thread_arrays_put_pool.
  - intros i t' (t & -> & Ht)%list_lookup_fmap_Some_1. by apply (Hframes i t).
  - intros [Hbound Hnodup]. split.
    + intros i t' (t & -> & Ht)%list_lookup_fmap_Some_1. by apply (Hbound i t).
    + rewrite <- list_fmap_compose. done.
Qed.

(** X1. The pool stays usable: after [newSearchThreadPool] and after
    [resetThreadPool] the array is still live, every thread still has a
    live block of [STACK_SIZE] frames, and threads that owned their
    blocks still do, so that any further operation returns as well. *)
Theorem pool_stays_live m threads pool b lim inf :
  pool_live m threads pool → frames_live m pool →
  (∃ m' pool',
     newSearchThreadPool threads b lim inf m = Done tt m' ∧
     pool_live m' threads pool' ∧ frames_live m' pool' ∧
     (frames_owned pool → frames_owned pool')) ∧
  (∃ m' pool',
     resetThreadPool threads m = Done tt m' ∧
     pool_live m' threads pool' ∧ frames_live m' pool' ∧
     (frames_owned pool → frames_owned pool')).
Proof.
  intros Hlive Hframes. split.
  - eexists _, _. split; [by apply newSearchThreadPool_run|].
    by apply started_pool_ok.
  - eexists _, _. split; [by apply resetThreadPool_run; apply Hlive|].
    by apply cleared_pool_ok.
Qed.

(** X2. Starting the same search twice is the same as starting it once:
    a second [newSearchThreadPool] with the same board and pointers
    returns the state the first one produced. *)
Theorem newSearchThreadPool_twice m threads pool b lim inf :
  pool_live m threads pool → frames_live m pool →
  ∃ m', newSearchThreadPool threads b lim inf m = Done tt m' ∧
        newSearchThreadPool threads b lim inf m' = Done tt m'.
Proof.
  intros Hlive Hframes. eexists. split; [by apply newSearchThreadPool_run|].
  destruct (started_pool_ok m threads pool (search_contempt m b) lim inf b Hlive Hframes)
    as (Hlive' & Hframes' & _).
  rewrite (newSearchThreadPool_run _ threads _ b lim inf Hlive' Hframes').
  match goal with |- context [search_contempt ?m1 b] =>
    lazymatch m1 with m => fail | _ => change (search_contempt m1 b) with (search_contempt m b) end
  end.
  cbn [nnue_blocks set_nnue_blocks]. rewrite restart_state, <- !list_fmap_compose.
  change (_nnueStack ∘ started (search_contempt m b) lim inf b) with _nnueStack.
  rewrite stale_blocks_idem. do 2 f_equal.
Qed.

(** X3. Right after [newSearchThreadPool] both totals are 0. *)
Theorem totals_zero_after_newSearch m threads pool b lim inf :
  pool_live m threads pool → frames_live m pool →
  ∃ m', newSearchThreadPool threads b lim inf m = Done tt m' ∧
        nodesSearchedThreadPool threads m' = Done 0 m' ∧
        tbhitsThreadPool threads m' = Done 0 m'.
Proof.
  intros Hlive Hframes. eexists. split; [by apply newSearchThreadPool_run|].
  destruct (started_pool_ok m threads pool (search_contempt m b) lim inf b Hlive Hframes)
    as (Hlive' & _).
  rewrite (nodesSearchedThreadPool_run _ _ _ Hlive'), (tbhitsThreadPool_run _ _ _ Hlive').
  rewrite !foldr_add_zero; [done| |];
    apply Forall_fmap, Forall_fmap, Forall_forall; done.
Qed.

(** X4. [resetThreadPool] writes the seven tables and nothing else: the
    other members of every thread, every block of frames and every other
    array are as before, and so are both totals. *)
Theorem resetThreadPool_frame m threads pool :
  pool_live m threads pool →
  ∃ m' pool',
    resetThreadPool threads m = Done tt m' ∧
    thread_arrays m' !! threads = Some pool' ∧
    (∀ i t t', pool !! i = Some t → pool' !! i = Some t' →
       kept_by_reset t' = kept_by_reset t ∧ length <$> tables t' = length <$> tables t) ∧
    nnue_blocks m' = nnue_blocks m ∧
    (∀ p, p ≠ threads → thread_arrays m' !! p = thread_arrays m !! p) ∧
    (∀ total, nodesSearchedThreadPool threads m = Done total m →
              nodesSearchedThreadPool threads m' = Done total m') ∧
    (∀ total, tbhitsThreadPool threads m = Done total m →
              tbhitsThreadPool threads m' = Done total m').
Proof.
  intros Hlive. eexists _, _. split; [by apply resetThreadPool_run|].
  assert (Hlive' : pool_live (put_pool threads (cleared <$> pool) m) threads (cleared <$> pool)).
  { apply (pool_live_fmap m threads pool); [done|done|]. apply thread_arrays_put_pool. }
  split; [apply thread_arrays_put_pool|]. split; [|split; [done|split; [|split]]].
  - intros i t t' Ht Ht'. rewrite list_lookup_fmap, Ht in Ht'. injection Ht' as <-.
    split; [done|]. unfold tables. cbn. unfold memset_zero.
    by rewrite !length_replicate.
  - intros p Hp. cbn. by rewrite lookup_insert_ne.
  - intros total. rewrite (nodesSearchedThreadPool_run _ _ _ Hlive).
    rewrite (nodesSearchedThreadPool_run _ _ _ Hlive'). intros [= <-].
    by rewrite <- list_fmap_compose.
  - intros total. rewrite (tbhitsThreadPool_run _ _ _ Hlive).
    rewrite (tbhitsThreadPool_run _ _ _ Hlive'). intros [= <-].
    by rewrite <- list_fmap_compose.
Qed.

(** X5. [newSearchThreadPool] leaves the stack pointers, the embedded
    stacks and the identity of every thread alone; in the frames it
    writes the flag only, and blocks that belong to no thread of the
    pool are not written at all. *)
Theorem newSearchThreadPool_frame m threads pool b lim inf :
  pool_live m threads pool → frames_live m pool →
  ∃ m' pool',
    newSearchThreadPool threads b lim inf m = Done tt m' ∧
    thread_arrays m' !! threads = Some pool' ∧
    (∀ i t t', pool !! i = Some t → pool' !! i = Some t' →
       kept_by_search t' = kept_by_search t ∧
       ∃ frames frames',
         nnue_blocks m !! _nnueStack t = Some frames ∧
         nnue_blocks m' !! _nnueStack t = Some frames' ∧
         frame_data <$> frames' = frame_data <$> frames) ∧
    (∀ base, base ∉ _nnueStack <$> pool → nnue_blocks m' !! base = nnue_blocks m !! base) ∧
    (∀ p, p ≠ threads → thread_arrays m' !! p = thread_arrays m !! p).
Proof.
  intros Hlive Hframes. eexists _, _. split; [by apply newSearchThreadPool_run|].
  split; [apply thread_arrays_put_pool|]. split; [|split].
  - intros i t t' Ht Ht'. rewrite list_lookup_fmap, Ht in Ht'. injection Ht' as <-.
    split; [done|]. destruct (Hframes i t Ht) as (frames & Hfr & _).
    exists frames, (stale <$> frames). split; [done|]. split.
    + cbn. rewrite stale_blocks_lookup, Hfr.
      rewrite decide_True; [done|]. apply list_elem_of_fmap. exists t.
      split; [done|]. by eapply list_elem_of_lookup_2.
    + rewrite <- list_fmap_compose. by apply list_fmap_ext.
  - intros base Hbase. cbn. rewrite stale_blocks_lookup. by rewrite decide_False.
  - intros p Hp. cbn. by rewrite lookup_insert_ne.
Qed.

(** X6. A reset and a search start do not interfere: run in either
    order on a live pool they end in the same state. *)
Theorem reset_newSearch_commute m threads pool b lim inf :
  pool_live m threads pool → frames_live m pool →
  ∃ m1 m2 m',
    resetThreadPool threads m = Done tt m1 ∧
    newSearchThreadPool threads b lim inf m1 = Done tt m' ∧
    newSearchThreadPool threads b lim inf m = Done tt m2 ∧
    resetThreadPool threads m2 = Done tt m'.
Proof.
  intros Hlive Hframes.
  destruct (cleared_pool_ok m threads pool Hlive Hframes) as (Hlive1 & Hframes1 & _).
  destruct (started_pool_ok m threads pool (search_contempt m b) lim inf b Hlive Hframes)
    as (Hlive2 & _).
  eexists _, _, _. split; [by apply resetThreadPool_run|].
  split; [by apply newSearchThreadPool_run|].
  split; [by apply newSearchThreadPool_run|].
  rewrite (resetThreadPool_run _ _ _ Hlive2). f_equal.
  change (search_contempt (put_pool threads (cleared <$> pool) m) b)
    with (search_contempt m b).
  unfold put_pool, set_thread_arrays, set_nnue_blocks. cbn.
  rewrite !insert_insert_eq, <- !list_fmap_compose.
  change (_nnueStack ∘ cleared) with _nnueStack.
  do 3 f_equal.
Qed.

End pool_extras.

(** * Further properties of creation and release *)

Section create_extras.
Context {cfg : Config}.

Lemma created_pool_live a n rest m :
  1 ≤ n →
  pool_live (created_machine a n rest (Z.to_nat n) m) a (created_pool a n rest (Z.to_nat n)).
Proof.
  intros Hn. split; [apply created_machine_pool|].
  exists (created a n 0 (alloc_result rest 0)). split.
  - unfold created_pool. rewrite list_lookup_fmap, lookup_seq_lt by lia. done.
  - rewrite created_pool_size. cbn. lia.
Qed.

Lemma created_tables a n i base : Forall all_zero (tables (created a n i base)).
Proof.
  unfold tables. cbn. repeat constructor; by apply Forall_replicate.
Qed.

Lemma cleared_created a n i base : cleared (created a n i base) = created a n i base.
Proof.
  unfold cleared, created, Thread_zero. cbv -[memset_zero replicate Z.to_nat addr__nnueStack
    addr__evalStack addr__moveStack addr__pieceStack STACK_SIZE STACK_OFFSET
    sizeof_EvalTable sizeof_PKTable sizeof_KillerTable sizeof_CounterMoveTable
    sizeof_HistoryTable sizeof_CaptureHistoryTable sizeof_ContinuationTable
    sizeof_Board_rest].
  unfold memset_zero. by rewrite !length_replicate.
Qed.

Lemma install_blocks_other junk bases : ∀ blocks base,
  base ∉ bases ∨ base = NULL →
  foldl (install_block junk) blocks bases !! base = blocks !! base.
Proof.
  induction bases as [|b bases IH]; intros blocks base Hout; cbn; [done|].
  rewrite IH.
  - unfold install_block. case_bool_decide as Hb; [done|].
    rewrite lookup_insert_ne; [done|]. intros ->.
    destruct Hout as [Hout| ->]; [|done]. apply Hout, list_elem_of_here.
  - destruct Hout as [Hout|?]; [|by right]. left. intros ?.
    by apply Hout, list_elem_of_further.
Qed.

Lemma foldl_delete_lookup {V} (keys : list Z) : ∀ (M : gmap Z V) key,
  foldl (λ M key, delete key M) M keys !! key
  = if decide (key ∈ keys) then None else M !! key.
Proof.
  induction keys as [|k keys IH]; intros M key; cbn.
  - by rewrite decide_False by apply not_elem_of_nil.
  - rewrite IH. destruct (decide (key = k)) as [->|Hne].
    + rewrite (decide_True (P := k ∈ k :: keys)) by apply list_elem_of_here.
      case_decide; [done|]. apply lookup_delete_eq.
    + rewrite lookup_delete_ne by done. case_decide as Hin.
      * by rewrite decide_True by by apply list_elem_of_further.
      * rewrite decide_False; [done|]. by intros [?|?]%elem_of_cons.
Qed.

Lemma alloc_results_take rest N :
  (N ≤ length rest)%nat →
  (λ i : nat, alloc_result rest (Z.of_nat i)) <$> seq 0 N = take N rest.
Proof.
  intros HN. apply list_eq. intros i. rewrite list_lookup_fmap.
  destruct (decide (i < N)%nat) as [Hi|Hi].
  - rewrite lookup_seq_lt, lookup_take_lt by done. cbn. unfold alloc_result.
    rewrite Nat2Z.id. by destruct (lookup_lt_is_Some_2 rest i ltac:(lia)) as [b ->].
  - by rewrite lookup_seq_ge, lookup_take_ge by lia.
Qed.

(** The effect of [deleteThreadPool] on a pool in which every thread
    either holds a null [_nnueStack] or owns a live block of its own. *)
Lemma deleteThreadPool_run m threads pool :
  pool_live m threads pool → threads ≠ NULL →
  (∀ i t, pool !! i = Some t →
     _nnueStack t = NULL ∨
     (thread_arrays m !! _nnueStack t = None ∧ is_Some (nnue_blocks m !! _nnueStack t))) →
  (∀ i j ti tj, pool !! i = Some ti → pool !! j = Some tj → i ≠ j →
     _nnueStack ti ≠ NULL → _nnueStack ti ≠ _nnueStack tj) →
  deleteThreadPool threads m
  = Done tt (set_thread_arrays (delete threads (thread_arrays m))
               (set_nnue_blocks
                  (foldl (λ M key, delete key M) (nnue_blocks m)
                         (filter (λ base, base ≠ NULL) (_nnueStack <$> pool))) m)).
Proof.
  intros Hlive Hthreads Hown Hdist. unfold deleteThreadPool.
  rewrite (pool_count_step _ m threads pool Hlive).
  destruct Hlive as [Hpool _]. rewrite bind_outcome. unfold for_loop. rewrite Nat2Z.id.
  match goal with |- match fold_from 0 _ ?body _ _ with _ => _ end = _ =>
    destruct (fold_from_total body
      (λ k _ s, s = set_nnue_blocks
                      (foldl (λ M key, delete key M) (nnue_blocks m)
                             (filter (λ base, base ≠ NULL) (take k (_nnueStack <$> pool)))) m)
      (length pool) 0%nat tt m) as ([] & s' & Hrun & ->)
  end.
  - cbn [take fmap list_fmap foldl]. by destruct m.
  - intros k [] s [_ Hk] ->. cbn in Hk.
    destruct (lookup_lt_is_Some_2 pool k Hk) as [t Ht].
    exists tt. eexists. split; [|reflexivity].
    erewrite bind_Done; last by (apply fmap_Done; eapply load_thread_at).
    rewrite (take_S_r _ _ (_nnueStack t)) by by rewrite list_lookup_fmap, Ht.
    rewrite filter_app. unfold ethereal_free, free.
    destruct (Hown k t Ht) as [Hbase|[Harr [frames Hfr]]].
    + rewrite bool_decide_eq_true_2 by done.
      rewrite filter_cons_False, filter_nil, app_nil_r by (intros H; by apply H). done.
    + destruct (decide (_nnueStack t = NULL)) as [Hbase|Hbase].
      * rewrite bool_decide_eq_true_2 by done.
        rewrite filter_cons_False, filter_nil, app_nil_r by (intros H; by apply H). done.
      * rewrite bool_decide_eq_false_2 by done.
        rewrite filter_cons_True, filter_nil, foldl_app by done.
        cbn [thread_arrays nnue_blocks set_nnue_blocks]. rewrite Harr.
        rewrite foldl_delete_lookup, decide_False, Hfr; [done|].
        intros [_ [j Hj]%list_elem_of_lookup_1]%list_elem_of_filter.
        apply lookup_take_Some in Hj as [Hj Hlt].
        rewrite list_lookup_fmap in Hj.
        destruct (pool !! j) as [tj|] eqn:Htj; [|done]. injection Hj as Hj.
        apply (Hdist k j t tj); [done|done|lia|done|done].
  - change (Z.of_nat 0) with 0 in Hrun. rewrite Hrun. cbn [Nat.add].
    rewrite <- (length_fmap _nnueStack pool), firstn_all.
    unfold free. rewrite bool_decide_eq_false_2 by done.
    cbn [thread_arrays set_nnue_blocks]. by rewrite Hpool.
Qed.

(** X17. [deleteThreadPool] releases the array and the block of every
    thread that has one, skipping threads whose [_nnueStack] is null;
    blocks of other owners and other arrays are not touched. *)
Theorem deleteThreadPool_releases m threads pool :
  pool_live m threads pool → threads ≠ NULL →
  (∀ i t, pool !! i = Some t →
     _nnueStack t = NULL ∨
     (thread_arrays m !! _nnueStack t = None ∧ is_Some (nnue_blocks m !! _nnueStack t))) →
  (∀ i j ti tj, pool !! i = Some ti → pool !! j = Some tj → i ≠ j →
     _nnueStack ti ≠ NULL → _nnueStack ti ≠ _nnueStack tj) →
  ∃ m',
    deleteThreadPool threads m = Done tt m' ∧
    thread_arrays m' !! threads = None ∧
    (∀ p, p ≠ threads → thread_arrays m' !! p = thread_arrays m !! p) ∧
    (∀ i t, pool !! i = Some t → _nnueStack t ≠ NULL →
            nnue_blocks m' !! _nnueStack t = None) ∧
    (∀ base, base = NULL ∨ base ∉ _nnueStack <$> pool →
             nnue_blocks m' !! base = nnue_blocks m !! base).
Proof.
  intros Hlive Hthreads Hown Hdist. eexists. split; [by apply deleteThreadPool_run|].
  cbn [thread_arrays nnue_blocks set_thread_arrays set_nnue_blocks].
  split; [apply lookup_delete_eq|]. split; [|split].
  - intros p Hp. by rewrite lookup_delete_ne.
  - intros i t Ht Hbase. rewrite foldl_delete_lookup, decide_True; [done|].
    apply list_elem_of_filter. split; [done|]. apply list_elem_of_fmap.
    exists t. split; [done|]. by eapply list_elem_of_lookup_2.
  - intros base Hbase. rewrite foldl_delete_lookup, decide_False; [done|].
    intros [Hne Hin]%list_elem_of_filter. by destruct Hbase.
Qed.

(** X7. In the pool that [createThreadPool] returns, thread [i] has
    [index = i], [threads] pointing back to the pool and
    [nthreads = n], its counters and tables are zero, and its block is
    the one the [i]-th aligned request returned; the allocator has served
    exactly [n] requests after [calloc]. *)
Theorem createThreadPool_identity n a rest m :
  1 ≤ n → allocator m = a :: rest → a ≠ NULL →
  (∀ i, 0 ≤ i < n → block_aligned (alloc_result rest i)) →
  ∃ m' pool,
    createThreadPool n m = Done a m' ∧
    thread_arrays m' !! a = Some pool ∧ Z.of_nat (length pool) = n ∧
    allocator m' = drop (Z.to_nat n) rest ∧
    ∀ i t, pool !! i = Some t →
      index t = Z.of_nat i ∧ threads t = a ∧ nthreads t = n ∧
      _nnueStack t = alloc_result rest (Z.of_nat i) ∧
      nodes t = 0 ∧ tbhits t = 0 ∧ height t = 0 ∧
      Forall all_zero (tables t).
Proof.
  intros Hn Halloc Ha Hal.
  pose proof (createThreadPool_outcome n a rest m Halloc Ha ltac:(lia)) as Hout.
  destruct (createThreadPool n m) as [p m'|c|]; [| |done].
  - destruct Hout as (-> & -> & _). eexists _, _. split; [done|].
    split; [apply created_machine_pool|]. split; [rewrite created_pool_size; lia|].
    split; [done|].
    intros i t Ht. apply created_pool_lookup in Ht as [Hi ->].
    do 7 (split; [done|]). apply created_tables.
  - destruct Hout as (_ & i & Hi & Hmis). destruct Hmis. by apply Hal.
Qed.

(** X8. A new pool is already in the reset state and has counted
    nothing: both totals are 0 and [resetThreadPool] returns the state
    unchanged. *)
Theorem fresh_pool_is_reset n a rest m :
  1 ≤ n → allocator m = a :: rest → a ≠ NULL →
  (∀ i, 0 ≤ i < n → block_aligned (alloc_result rest i)) →
  ∃ m',
    createThreadPool n m = Done a m' ∧
    nodesSearchedThreadPool a m' = Done 0 m' ∧
    tbhitsThreadPool a m' = Done 0 m' ∧
    resetThreadPool a m' = Done tt m'.
Proof.
  intros Hn Halloc Ha Hal.
  pose proof (createThreadPool_outcome n a rest m Halloc Ha ltac:(lia)) as Hout.
  destruct (createThreadPool n m) as [p m'|c|]; [| |done].
  - destruct Hout as (-> & -> & _). eexists. split; [done|].
    pose proof (created_pool_live a n rest m Hn) as Hlive.
    rewrite (nodesSearchedThreadPool_run _ _ _ Hlive), (tbhitsThreadPool_run _ _ _ Hlive).
    rewrite (resetThreadPool_run _ _ _ Hlive).
    assert (Hzero : ∀ (counter : Thread → Z),
              (∀ i base, counter (created a n i base) = 0) →
              foldr Z.add 0 (counter <$> created_pool a n rest (Z.to_nat n)) = 0).
    { intros counter Hc. apply foldr_add_zero. unfold created_pool.
      rewrite <- list_fmap_compose. apply Forall_fmap, Forall_forall.
      intros i _. cbv beta. unfold compose. exact (Hc _ _). }
    rewrite (Hzero nodes) by (intros; reflexivity).
    rewrite (Hzero tbhits) by (intros; reflexivity).
    split; [reflexivity|]. split; [reflexivity|]. f_equal.
    rewrite (list_fmap_ext cleared id _); last by (intros ? t (_ & ->)%created_pool_lookup;
      apply cleared_created).
    rewrite list_fmap_id. apply put_pool_same, created_machine_pool.
  - destruct Hout as (_ & i & Hi & Hmis). destruct Hmis. by apply Hal.
Qed.

(** X9. Creation followed by release leaks nothing: with an allocator
    that serves [calloc] and [n] fresh, distinct, passing blocks,
    [deleteThreadPool] on the new pool returns, and the arrays and blocks
    that are live afterwards are exactly those from before
    [createThreadPool]; the allocator has served [n + 1] requests. *)
Theorem create_delete_roundtrip n a rest m :
  1 ≤ n → allocator m = a :: rest → a ≠ NULL → thread_arrays m !! a = None →
  (Z.to_nat n ≤ length rest)%nat →
  NoDup (a :: take (Z.to_nat n) rest) →
  Forall (λ base, (base ≠ NULL ∧ block_aligned base) ∧
                  nnue_blocks m !! base = None ∧ thread_arrays m !! base = None)
         (take (Z.to_nat n) rest) →
  ∃ m' m'',
    createThreadPool n m = Done a m' ∧
    deleteThreadPool a m' = Done tt m'' ∧
    thread_arrays m'' = thread_arrays m ∧
    nnue_blocks m'' = nnue_blocks m ∧
    allocator m'' = drop (Z.to_nat n) rest.
Proof.
  intros Hn Halloc Ha Hfresh Hlen [Hanew Hnodup]%NoDup_cons Hserved.
  assert (Hres : ∀ i, (i < Z.to_nat n)%nat →
            take (Z.to_nat n) rest !! i = Some (alloc_result rest (Z.of_nat i))).
  { intros i Hi. rewrite lookup_take_lt by done. unfold alloc_result. rewrite Nat2Z.id.
    by destruct (lookup_lt_is_Some_2 rest i ltac:(lia)) as [b ->]. }
  rewrite Forall_lookup in Hserved.
  pose proof (createThreadPool_outcome n a rest m Halloc Ha ltac:(lia)) as Hout.
  destruct (createThreadPool n m) as [p m'|c|]; [| |done].
  - destruct Hout as (-> & -> & _). eexists _, _. split; [done|].
    split; [|split; [|split]].
    + apply deleteThreadPool_run; [by apply created_pool_live|done| |].
      * intros i t Ht. apply created_pool_lookup in Ht as [Hi ->].
        destruct (Hserved i _ (Hres i Hi)) as ((Hbase & _) & _ & Harr).
        cbn [_nnueStack created set_nnueStack set__nnueStack].
        right. split.
        -- unfold created_machine. cbn. rewrite lookup_insert_ne; [done|].
           intros Heq. apply Hanew. rewrite Heq. eapply list_elem_of_lookup_2, Hres, Hi.
        -- rewrite created_machine_block by (done || lia). by eexists.
      * intros i j ti tj Hti Htj Hij _ Heq. apply Hij.
        apply (NoDup_lookup (_nnueStack <$> created_pool a n rest (Z.to_nat n)) i j
                 (_nnueStack ti)); [by rewrite created_pool_bases| |].
        -- by rewrite list_lookup_fmap, Hti.
        -- by rewrite list_lookup_fmap, Htj, Heq.
    + unfold created_machine. cbn. by rewrite delete_insert_id.
    + cbn [nnue_blocks set_nnue_blocks set_thread_arrays]. apply map_eq. intros base.
      rewrite foldl_delete_lookup, created_pool_bases by done.
      unfold created_machine. cbn. rewrite alloc_results_take by done.
      destruct (decide (base ∈ take (Z.to_nat n) rest)) as [Hin|Hin].
      * apply list_elem_of_lookup_1 in Hin as Hat. destruct Hat as [i Hi].
        destruct (Hserved i base Hi) as ((Hbase & _) & -> & _).
        rewrite decide_True; [done|]. by apply list_elem_of_filter.
      * rewrite decide_False by (by intros [_ ?]%list_elem_of_filter).
        by rewrite install_blocks_other by by left.
    + done.
  - destruct Hout as (_ & i & Hi & Hmis). destruct Hmis.
    replace i with (Z.of_nat (Z.to_nat i)) by lia.
    destruct (Hserved (Z.to_nat i) _ (Hres (Z.to_nat i) ltac:(lia))) as ((_ & Hal) & _).
    done.
Qed.

Lemma ethereal_alloc_run size alignment m :
  let p := default NULL (head (allocator m)) in
  ethereal_alloc size alignment m
  = Done p (if bool_decide (p = NULL) then set_allocator (tail (allocator m)) m
            else put_block p (fresh_block (junk m) p size)
                   (set_allocator (tail (allocator m)) m)).
Proof.
  intros p.
  unfold ethereal_alloc, posix_memalign, next_address, mbind, M_bind, mret, M_ret, modify.
  subst p. case_bool_decide as Hnull; cbn.
  - by rewrite Hnull.
  - by rewrite (bool_decide_eq_false_2 (0 ≠ 0)) by (intros H; by apply H).
Qed.

(** X10. [ethereal_alloc] returns [NULL] exactly when the allocator
    refuses, and otherwise the base of a new live block of
    [size / sizeof(NNUEStack)] frames; handing its result to
    [ethereal_free], null or not, leaves the live blocks and arrays as
    they were before the request. *)
Theorem ethereal_alloc_free size alignment m :
  (∀ base, head (allocator m) = Some base → base ≠ NULL →
           nnue_blocks m !! base = None ∧ thread_arrays m !! base = None) →
  ∃ p m1 m2,
    ethereal_alloc size alignment m = Done p m1 ∧
    p = default NULL (head (allocator m)) ∧
    (p ≠ NULL → nnue_blocks m1 !! p = Some (fresh_block (junk m) p size)) ∧
    (p = NULL → nnue_blocks m1 = nnue_blocks m) ∧
    ethereal_free p m1 = Done tt m2 ∧
    nnue_blocks m2 = nnue_blocks m ∧ thread_arrays m2 = thread_arrays m.
Proof.
  intros Hfresh. rewrite ethereal_alloc_run. cbv zeta. unfold ethereal_free, free.
  destruct (head (allocator m)) as [base|] eqn:Hhead; cbn [default from_option id];
    [destruct (decide (base = NULL)) as [Hnull|Hbase]|].
  - eexists _, _, _. split; [done|]. split; [done|].
    rewrite !bool_decide_eq_true_2 by done. repeat split; done.
  - destruct (Hfresh base eq_refl Hbase) as [Hblk Harr].
    eexists _, _, _. split; [done|]. split; [done|].
    rewrite !bool_decide_eq_false_2 by done.
    cbn [thread_arrays nnue_blocks put_block set_nnue_blocks set_allocator].
    rewrite Harr, lookup_insert_eq. split; [done|]. split; [done|]. split; [done|].
    cbn. by rewrite delete_insert_id.
  - eexists _, _, _. split; [done|]. split; [done|].
    rewrite !bool_decide_eq_true_2 by done. repeat split; done.
Qed.

End create_extras.

(** * Invalid accesses *)

Lemma fold_from_app {St A} (body : Z → A → M St A) c1 c2 : ∀ i acc s,
  fold_from i (c1 + c2) body acc s
  = (fold_from i c1 body acc ≫= fold_from (i + Z.of_nat c1) c2 body) s.
Proof.
  induction c1 as [|c1 IH]; intros i acc s.
  - cbn [Nat.add fold_from]. rewrite bind_outcome. cbn. by rewrite Z.add_0_r.
  - cbn [Nat.add]. rewrite bind_outcome, !fold_from_S, !bind_outcome.
    destruct (body i acc s) as [acc' s'| |]; [|done..].
    rewrite IH, !bind_outcome.
    by replace (i + 1 + Z.of_nat c1) with (i + Z.of_nat (S c1)) by lia.
Qed.

Lemma load_thread_absent {A B} threads (proj : Thread → A) (k : A → M Machine B) m :
  thread_arrays m !! threads = None ∨ thread_arrays m !! threads = Some [] →
  ((proj <$> load_thread threads 0) ≫= k) m = Fault.
Proof.
  intros Habs. rewrite bind_outcome. unfold fmap, M_fmap, load_thread.
  by destruct Habs as [-> | ->].
Qed.

Lemma store_thread_absent {B} threads i f (k : unit → M Machine B) m :
  thread_arrays m !! threads = None →
  (store_thread threads i f ≫= k) m = Fault.
Proof. intros Habs. rewrite bind_outcome. unfold store_thread. by rewrite Habs. Qed.

Section fault_extras.
Context {cfg : Config}.

(** The first [k] passes of the outer loop of [newSearchThreadPool], when
    the first [k] threads have live blocks. *)
Lemma newSearch_prefix_run m threads pool c lim inf b k :
  thread_arrays m !! threads = Some pool → (k ≤ length pool)%nat →
  (∀ i t, (i < k)%nat → pool !! i = Some t →
     ∃ frames, nnue_blocks m !! _nnueStack t = Some frames ∧
               Z.of_nat (length frames) = STACK_SIZE) →
  fold_from 0 k (λ i _,
      store_thread threads i (set_limits lim);;
      store_thread threads i (set_info inf);;
      store_thread threads i (set_contempt c);;
      store_thread threads i (set_height 0);;
      store_thread threads i (set_nodes 0);;
      store_thread threads i (set_tbhits 0);;
      store_thread threads i (set_board b);;
      top ← nnueStack <$> load_thread threads i;
      store_thread threads i (set_board_st top);;
      for_loop STACK_SIZE (λ j,
        base ← _nnueStack <$> load_thread threads i;
        store_frame base j (set_computedAccumulation 0))) tt m
  = Done tt (set_nnue_blocks (stale_blocks (take k (_nnueStack <$> pool)) (nnue_blocks m))
               (put_pool threads ((started c lim inf b <$> take k pool) ++ drop k pool) m)).
Proof.
  intros Hpool Hk Hframes. set (F := started c lim inf b).
  match goal with |- fold_from 0 _ ?body _ _ = _ =>
    destruct (fold_from_total body
      (λ k _ s, s = set_nnue_blocks
                      (stale_blocks (take k (_nnueStack <$> pool)) (nnue_blocks m))
                      (put_pool threads ((F <$> take k pool) ++ drop k pool) m))
      k 0%nat tt m) as ([] & s' & Hrun & ->)
  end.
  - cbn [take fmap list_fmap]. rewrite drop_0, put_pool_same by done. by destruct m.
  - intros j [] s [_ Hj] ->. cbn in Hj.
    destruct (lookup_lt_is_Some_2 pool j ltac:(lia)) as [t Ht].
    destruct (Hframes j t Hj Ht) as (frames0 & Hfr0 & Hlen0).
    assert (∃ frames, stale_blocks (take j (_nnueStack <$> pool)) (nnue_blocks m)
                        !! _nnueStack t = Some frames ∧
                      Z.of_nat (length frames) = STACK_SIZE) as (frames & Hfr & Hlen).
    { rewrite stale_blocks_lookup, Hfr0. case_decide; cbn; eexists; split; try done.
      by rewrite length_fmap. }
    exists tt. eexists. split; [|reflexivity].
    set (arr := (F <$> take j pool) ++ drop j pool).
    set (blocks := stale_blocks (take j (_nnueStack <$> pool)) (nnue_blocks m)) in *.
    assert (Harr : arr !! j = Some t) by by apply prefix_focus.
    assert (Hlt : (j < length arr)%nat) by (unfold arr; rewrite prefix_length; lia).
    transitivity (Done (St := Machine) tt
      (put_pool threads (<[j := F t]> arr)
         (put_block (_nnueStack t) (stale <$> frames) (set_nnue_blocks blocks m)))).
    + rewrite <- (newSearch_body_run threads j arr t frames c lim inf b) by done.
      f_equal. rewrite list_insert_id by done.
      unfold put_pool, put_block, set_thread_arrays, set_nnue_blocks. cbn.
      by rewrite (insert_id blocks) by done.
    + f_equal. unfold arr. rewrite (prefix_step F _ _ _ Ht).
      rewrite (take_S_r _ _ (_nnueStack t)) by by rewrite list_lookup_fmap, Ht.
      rewrite stale_blocks_snoc. fold blocks. unfold stale_block. by rewrite Hfr.
  - change (Z.of_nat 0) with 0 in Hrun. by rewrite Hrun.
Qed.

(** The pass for a thread whose [_nnueStack] is not the base of a live
    block: the first store through it is an invalid access. *)
Lemma newSearch_body_fault threads k arr t c lim inf b m :
  (k < length arr)%nat → 1 ≤ STACK_SIZE →
  nnue_blocks m !! _nnueStack t = None →
  (store_thread threads (Z.of_nat k) (set_limits lim);;
   store_thread threads (Z.of_nat k) (set_info inf);;
   store_thread threads (Z.of_nat k) (set_contempt c);;
   store_thread threads (Z.of_nat k) (set_height 0);;
   store_thread threads (Z.of_nat k) (set_nodes 0);;
   store_thread threads (Z.of_nat k) (set_tbhits 0);;
   store_thread threads (Z.of_nat k) (set_board b);;
   top ← nnueStack <$> load_thread threads (Z.of_nat k);
   store_thread threads (Z.of_nat k) (set_board_st top);;
   for_loop STACK_SIZE (λ j,
     base ← _nnueStack <$> load_thread threads (Z.of_nat k);
     store_frame base j (set_computedAccumulation 0)))
    (put_pool threads (<[k := t]> arr) m)
  = Fault.
Proof.
  intros Hk Hcap Hnone.
  do 7 (rewrite store_thread_step by done).
  rewrite load_thread_step by done.
  rewrite store_thread_step by done.
  unfold for_loop. destruct (Z.to_nat STACK_SIZE) as [|n] eqn:Hn; [lia|].
  rewrite fold_from_S, bind_outcome.
  change 0 with (Z.of_nat 0) at 1. rewrite load_thread_step by done.
  unfold store_frame. cbn [nnue_blocks put_pool set_thread_arrays].
  match goal with |- context [nnue_blocks m !! ?base] =>
    change (nnue_blocks m !! base) with (nnue_blocks m !! _nnueStack t)
  end.
  by rewrite Hnone.
Qed.

(** The outer loop of [newSearchThreadPool] on a pool in which thread
    [i] is the first whose block is missing. *)
Lemma newSearch_loop_fault m threads pool c lim inf b i t :
  thread_arrays m !! threads = Some pool → 1 ≤ STACK_SIZE →
  pool !! i = Some t → nnue_blocks m !! _nnueStack t = None →
  (∀ j tj, (j < i)%nat → pool !! j = Some tj →
     ∃ frames, nnue_blocks m !! _nnueStack tj = Some frames ∧
               Z.of_nat (length frames) = STACK_SIZE) →
  fold_from 0 (length pool) (λ i _,
      store_thread threads i (set_limits lim);;
      store_thread threads i (set_info inf);;
      store_thread threads i (set_contempt c);;
      store_thread threads i (set_height 0);;
      store_thread threads i (set_nodes 0);;
      store_thread threads i (set_tbhits 0);;
      store_thread threads i (set_board b);;
      top ← nnueStack <$> load_thread threads i;
      store_thread threads i (set_board_st top);;
      for_loop STACK_SIZE (λ j,
        base ← _nnueStack <$> load_thread threads i;
        store_frame base j (set_computedAccumulation 0))) tt m
  = Fault.
Proof.
  intros Hpool Hcap Ht Hnone Hbefore.
  pose proof (lookup_lt_Some _ _ _ Ht) as Hi.
  replace (length pool) with (i + S (length pool - S i))%nat by lia.
  rewrite fold_from_app.
  erewrite bind_Done; last by (apply newSearch_prefix_run; [done|lia|done]).
  rewrite fold_from_S, bind_outcome. cbn [Z.add Z.of_nat].
  set (arr := (started c lim inf b <$> take i pool) ++ drop i pool).
  assert (Harr : arr !! i = Some t) by by apply prefix_focus.
  assert (Hlt : (i < length arr)%nat) by (unfold arr; rewrite prefix_length; lia).
  rewrite <- (list_insert_id arr i t Harr).
  change (0 + Z.of_nat i) with (Z.of_nat i).
  match goal with |- match ?pass with _ => _ end = _ =>
    assert (Hpass : pass = Fault); [|by rewrite Hpass]
  end.
  apply (newSearch_body_fault threads i arr t _ lim inf b
           (set_nnue_blocks (stale_blocks (take i (_nnueStack <$> pool)) (nnue_blocks m)) m));
    [done|done|].
  cbn [nnue_blocks set_nnue_blocks]. rewrite stale_blocks_lookup, Hnone. by case_decide.
Qed.

(** X11. [newSearchThreadPool] stores through [_nnueStack] without
    testing it: on a pool in which the block of some thread is missing,
    while those of the threads before it are live, the call is an
    invalid access, however many frames there are (at least one). *)
Theorem newSearchThreadPool_needs_blocks m threads pool b lim inf i t :
  pool_live m threads pool → 1 ≤ STACK_SIZE →
  pool !! i = Some t → nnue_blocks m !! _nnueStack t = None →
  (∀ j tj, (j < i)%nat → pool !! j = Some tj →
     ∃ frames, nnue_blocks m !! _nnueStack tj = Some frames ∧
               Z.of_nat (length frames) = STACK_SIZE) →
  newSearchThreadPool threads b lim inf m = Fault.
Proof.
  intros Hlive Hcap Ht Hnone Hbefore. unfold newSearchThreadPool.
  rewrite !gets_step, (pool_count_step _ m threads pool Hlive).
  destruct Hlive as [Hpool _]. unfold for_loop. rewrite Nat2Z.id.
  by apply (newSearch_loop_fault m threads pool _ lim inf b i t).
Qed.

Lemma created_machine_null a n rest m :
  nnue_blocks (created_machine a n rest (Z.to_nat n) m) !! NULL = nnue_blocks m !! NULL.
Proof. unfold created_machine. cbn. apply install_blocks_other. by right. Qed.

(** X12. A failed aligned allocation goes unnoticed.  With a layout
    that keeps multiples of 64, the null pointer that [ethereal_alloc]
    returns passes the alignment test, [createThreadPool] returns a pool
    whose thread [i] has [_nnueStack = NULL], and the first
    [newSearchThreadPool] on that pool is an invalid access. *)
Theorem createThreadPool_ignores_failed_alloc n a rest m i :
  1 ≤ n → allocator m = a :: rest → a ≠ NULL → nnue_blocks m !! NULL = None →
  sizeof_NNUEStack `mod` 64 = 0 → offsetof_accumulation `mod` 64 = 0 →
  0 < sizeof_NNUEStack → 1 ≤ STACK_SIZE →
  (i < Z.to_nat n)%nat → alloc_result rest (Z.of_nat i) = NULL →
  (∀ j, 0 ≤ j < n → alloc_result rest j `mod` 64 = 0) →
  (∀ j, (j < i)%nat → alloc_result rest (Z.of_nat j) ≠ NULL) →
  ∃ m' pool t,
    createThreadPool n m = Done a m' ∧
    thread_arrays m' !! a = Some pool ∧
    pool !! i = Some t ∧ _nnueStack t = NULL ∧
    ∀ b lim inf, newSearchThreadPool a b lim inf m' = Fault.
Proof.
  intros Hn Halloc Ha Hnull Hsz Hoff Hpos Hcap Hi Hfail Hmod Hbefore.
  pose proof (createThreadPool_outcome n a rest m Halloc Ha ltac:(lia)) as Hout.
  destruct (createThreadPool n m) as [p m'|c|]; [| |done].
  - destruct Hout as (-> & -> & _).
    assert (Ht : created_pool a n rest (Z.to_nat n) !! i
                 = Some (created a n (Z.of_nat i) NULL)).
    { unfold created_pool. rewrite list_lookup_fmap, lookup_seq_lt by done.
      cbn. by rewrite Hfail. }
    eexists _, _, _. split; [done|]. split; [apply created_machine_pool|].
    split; [exact Ht|]. split; [done|].
    intros b lim inf. unfold newSearchThreadPool.
    rewrite !gets_step, (pool_count_step _ _ a _ (created_pool_live a n rest m Hn)).
    unfold for_loop. rewrite Nat2Z.id.
    apply (newSearch_loop_fault _ a _ _ lim inf b i _ (created_machine_pool a n rest m)
             Hcap Ht).
    + cbn [_nnueStack created set_nnueStack set__nnueStack].
      by rewrite created_machine_null.
    + intros j tj Hj Htj. apply created_pool_lookup in Htj as [Hjn ->].
      cbn [_nnueStack created set_nnueStack set__nnueStack]. eexists. split.
      * apply created_machine_block; [lia|by apply Hbefore].
      * apply fresh_block_length; lia.
  - destruct Hout as (_ & j & Hj & Hmis). destruct Hmis.
    apply aligned_layout; [done..|]. by apply Hmod.
Qed.

(** X13. [createThreadPool] does not test what [calloc] returns: when
    [calloc] fails and at least one thread was asked for, the first
    assignment goes through the null pointer. *)
Theorem createThreadPool_calloc_failure n m :
  1 ≤ n → default NULL (head (allocator m)) = NULL → thread_arrays m !! NULL = None →
  createThreadPool n m = Fault.
Proof.
  intros Hn Hhead Hnull. unfold createThreadPool, calloc, next_address.
  rewrite !bind_outcome, Hhead. rewrite bool_decide_eq_true_2 by by left.
  cbn [mret M_ret]. rewrite bind_outcome. unfold for_loop.
  destruct (Z.to_nat n) as [|c] eqn:Hc; [lia|].
  rewrite fold_from_S, bind_outcome. by rewrite store_thread_absent.
Qed.

(** X14. Asked for no thread at all, [createThreadPool] returns without
    entering its loop, and what it returns cannot be used: each of the
    other operations starts by reading [threads->nthreads], which is not
    there. *)
Theorem createThreadPool_empty n m :
  n ≤ 0 → thread_arrays m !! NULL = None →
  ∃ p m',
    createThreadPool n m = Done p m' ∧
    nnue_blocks m' = nnue_blocks m ∧
    resetThreadPool p m' = Fault ∧
    (∀ b lim inf, newSearchThreadPool p b lim inf m' = Fault) ∧
    nodesSearchedThreadPool p m' = Fault ∧
    tbhitsThreadPool p m' = Fault ∧
    deleteThreadPool p m' = Fault.
Proof.
  intros Hn Hnull.
  assert (∃ p m', createThreadPool n m = Done p m' ∧ nnue_blocks m' = nnue_blocks m ∧
            (thread_arrays m' !! p = None ∨ thread_arrays m' !! p = Some []))
    as (p & m' & Hrun & Hblocks & Habs).
  { unfold createThreadPool, calloc, next_address, for_loop.
    rewrite !bind_outcome. replace (Z.to_nat n) with 0%nat by lia.
    case_bool_decide as Hcase.
    - eexists _, _. split; [done|]. split; [done|]. by left.
    - eexists _, _. split; [done|]. split; [done|]. right. cbn. apply lookup_insert_eq. }
  exists p, m'. split; [done|]. split; [done|].
  unfold resetThreadPool, newSearchThreadPool, nodesSearchedThreadPool,
    tbhitsThreadPool, deleteThreadPool.
  repeat split; intros; rewrite ?gets_step; by apply load_thread_absent.
Qed.

End fault_extras.

(** * Further properties of the mapped files *)

(** X15. Both builds of [file_size] report the length of the file, the
    Windows one by putting the two 32-bit halves back together (for a
    length below [2^64]), and neither changes anything. *)
Theorem file_size_builds_agree fd s bytes :
  open_files s !! fd = Some bytes → Z.of_nat (length bytes) < 2 ^ 64 →
  file_size POSIX fd s = Done (Z.of_nat (length bytes)) s ∧
  file_size WIN32 fd s = Done (Z.of_nat (length bytes)) s.
Proof.
  intros Hopen Hsize. split.
  - unfold file_size, fstat_st_size. by rewrite Hopen.
  - unfold file_size, GetFileSize. rewrite bind_outcome, Hopen. cbn [mret M_ret].
    f_equal. set (n := Z.of_nat (length bytes)) in *.
    assert (0 ≤ n `div` 2 ^ 32 < 2 ^ 32) as Hhigh
      by (split; [apply Z.div_pos|apply Z.div_lt_upper_bound]; lia).
    unfold uint64. rewrite (Z.mod_small (Z.shiftl _ _)).
    + apply lor_halves. lia.
    + rewrite Z.shiftl_mul_pow2, (Z.mod_small (n `div` 2 ^ 32)) by lia. lia.
Qed.

(** X16. The Windows build leaks the mapping object when the view
    cannot be mapped: [map_file] returns a null pointer with the handle
    of the open object in [map], and [unmap_file], given that null
    pointer, returns without closing it. *)
Theorem map_file_windows_leak fd s bytes :
  open_files s !! fd = Some bytes → bytes ≠ [] → Z.of_nat (length bytes) < 2 ^ 64 →
  let h := default 0 (head (kernel s)) in
  let a := default 0 (head (tail (kernel s))) in
  h ≠ 0 → mapping_objects s !! h = None →
  a = 0 ∨ is_Some (views s !! a) →
  ∃ s1,
    map_file WIN32 fd s = Done (NULL, h) s1 ∧
    mapping_objects s1 !! h = Some bytes ∧
    views s1 = views s ∧
    unmap_file WIN32 NULL h s1 = Done tt s1.
Proof.
  intros Hopen Hne Hsize h a Hh Hfree Hrefused.
  rewrite (map_file_win32_run fd s bytes Hopen Hsize). cbv zeta. fold h a.
  rewrite (bool_decide_eq_false_2 (bytes = [])) by done.
  rewrite (bool_decide_eq_false_2 (h = 0 ∨ _)).
  - rewrite (bool_decide_eq_true_2 (a = 0 ∨ _)) by done.
    eexists. split; [done|]. split; [apply lookup_insert_eq|]. done.
  - rewrite Hfree. intros [?|[? ?]]; done.
Qed.

(** ** The theorems at work on the samples *)

Lemma sample_blocks_served i :
  0 ≤ i < 4 →
  alloc_result [262144; 524288; 786432; 1048576; 1310720] i ≠ NULL ∧
  block_aligned (alloc_result [262144; 524288; 786432; 1048576; 1310720] i).
Proof.
  intros Hi.
  assert (i = 0 ∨ i = 1 ∨ i = 2 ∨ i = 3) as [-> | [-> | [-> | ->]]] by lia;
    (split; [by vm_compute|apply aligned_layout; by vm_compute]).
Qed.

Lemma newSearchThreadPool_resets_witness :
  ∃ m' pool',
    newSearchThreadPool sample_threads (sample_board 1) 111 222 sample_machine = Done tt m' ∧
    thread_arrays m' !! sample_threads = Some pool' ∧
    length pool' = length sample_pool ∧
    ∀ i t', pool' !! i = Some t' →
      nodes t' = 0 ∧ tbhits t' = 0 ∧ height t' = 0 ∧
      ∃ frames, nnue_blocks m' !! _nnueStack t' = Some frames ∧
                Z.of_nat (length frames) = STACK_SIZE ∧
                ∀ j fr, frames !! j = Some fr →
                        computedAccumulation (accumulator fr) = 0.
Proof.
  exact (newSearchThreadPool_resets sample_machine sample_threads sample_pool
           (sample_board 1) 111 222 sample_pool_live sample_frames_live).
Defined.

Lemma createThreadPool_alignment_witness :
  (∃ m', createThreadPool 4 (sample_boot 20 5) = Done sample_threads m') ∧
  createThreadPool 4 misaligned_boot = Exit EXIT_FAILURE.
Proof.
  split.
  - apply (createThreadPool_alignment 4 65536
             [262144; 524288; 786432; 1048576; 1310720] (sample_boot 20 5));
      [lia|reflexivity|done|..|reflexivity|reflexivity].
    intros i Hi. assert (i = 0 ∨ i = 1 ∨ i = 2 ∨ i = 3) as [-> | [-> | [-> | ->]]] by lia;
      reflexivity.
  - apply (createThreadPool_alignment 4 65536 [262144; 524296; 786432] misaligned_boot);
      [lia|reflexivity|done|].
    exists 1, 0. split; [lia|]. split; [done|]. by vm_compute.
Defined.

Lemma aggregators_sum_witness :
  nodesSearchedThreadPool sample_threads sample_machine
    = Done (uint64 (foldr Z.add 0 (nodes <$> sample_pool))) sample_machine ∧
  tbhitsThreadPool sample_threads sample_machine
    = Done (uint64 (foldr Z.add 0 (tbhits <$> sample_pool))) sample_machine.
Proof. exact (aggregators_sum sample_machine sample_threads sample_pool sample_pool_live). Defined.

Lemma contempt_sign_witness :
  ∃ m' pool',
    newSearchThreadPool sample_threads (sample_board 1) 111 222 sample_machine = Done tt m' ∧
    thread_arrays m' !! sample_threads = Some pool' ∧
    length pool' = length sample_pool ∧
    ∀ i t', pool' !! i = Some t' →
      (turn (sample_board 1) ≠ BLACK →
         ScoreMG (contempt t') = 25 ∧ ScoreEG (contempt t') = 20) ∧
      (turn (sample_board 1) = BLACK →
         ScoreMG (contempt t') = -25 ∧ ScoreEG (contempt t') = -20).
Proof.
  apply (contempt_sign sample_machine sample_threads sample_pool (sample_board 1) 111 222
           sample_packs_pairs sample_pool_live sample_frames_live); by vm_compute.
Defined.

Lemma resetThreadPool_idempotent_witness :
  ∃ m' pool',
    resetThreadPool sample_threads sample_machine = Done tt m' ∧
    thread_arrays m' !! sample_threads = Some pool' ∧
    length pool' = length sample_pool ∧
    (∀ i t', pool' !! i = Some t' → Forall all_zero (tables t')) ∧
    resetThreadPool sample_threads m' = Done tt m'.
Proof.
  exact (resetThreadPool_idempotent sample_machine sample_threads sample_pool sample_pool_live).
Defined.

Lemma tables_cleared_only_by_reset_witness :
  (∃ m' pool',
     newSearchThreadPool sample_threads (sample_board 0) 111 222 sample_machine = Done tt m' ∧
     thread_arrays m' !! sample_threads = Some pool' ∧
     length pool' = length sample_pool ∧
     ∀ i t t', sample_pool !! i = Some t → pool' !! i = Some t' → tables t' = tables t) ∧
  (∃ total, nodesSearchedThreadPool sample_threads sample_machine = Done total sample_machine) ∧
  (∃ total, tbhitsThreadPool sample_threads sample_machine = Done total sample_machine) ∧
  (∃ m' pool',
     resetThreadPool sample_threads sample_machine = Done tt m' ∧
     thread_arrays m' !! sample_threads = Some pool' ∧
     ∀ i t t', sample_pool !! i = Some t → pool' !! i = Some t' →
       tables t' = memset_zero <$> tables t).
Proof.
  exact (tables_cleared_only_by_reset sample_machine sample_threads sample_pool
           (sample_board 0) 111 222 sample_pool_live sample_frames_live).
Defined.

Lemma createThreadPool_stacks_witness :
  ∃ m' pool,
    createThreadPool 4 (sample_boot 20 5) = Done sample_threads m' ∧
    thread_arrays m' !! sample_threads = Some pool ∧ Z.of_nat (length pool) = 4 ∧
    ∀ i t, pool !! i = Some t →
      looks_back (addr__evalStack sample_threads (Z.of_nat i) 0) sizeof_evalStack_elt
                 (Z.of_nat (length (_evalStack t))) (evalStack t) ∧
      looks_back (addr__moveStack sample_threads (Z.of_nat i) 0) sizeof_moveStack_elt
                 (Z.of_nat (length (_moveStack t))) (moveStack t) ∧
      looks_back (addr__pieceStack sample_threads (Z.of_nat i) 0) sizeof_pieceStack_elt
                 (Z.of_nat (length (_pieceStack t))) (pieceStack t) ∧
      ∃ frames, nnue_blocks m' !! _nnueStack t = Some frames ∧
                looks_back (_nnueStack t) sizeof_NNUEStack
                           (Z.of_nat (length frames)) (nnueStack t).
Proof.
  apply (createThreadPool_stacks 4 65536
           [262144; 524288; 786432; 1048576; 1310720] (sample_boot 20 5));
    [lia|reflexivity|done|apply sample_blocks_served|done..].
Defined.

Lemma unmap_file_releases_witness :
  unmap_file POSIX NULL 3 sample_os = Done tt sample_os ∧
  views (sample_mapped WIN32) !! 4096 = Some [10; 20; 30] ∧
  ∃ s2, unmap_file WIN32 4096 700 (sample_mapped WIN32) = Done tt s2 ∧
        views s2 !! 4096 = None ∧
        views s2 = views sample_os ∧
        mapping_objects s2 = mapping_objects sample_os ∧
        open_files s2 = open_files sample_os.
Proof.
  split; [apply unmap_file_releases|].
  apply (proj2 unmap_file_releases WIN32 5 sample_os [10; 20; 30] 4096 700
           (sample_mapped WIN32)); by vm_compute.
Defined.


Lemma newSearchThreadPool_shares_witness :
  ∃ m' pool',
    newSearchThreadPool sample_threads (sample_board 1) 111 222 sample_machine = Done tt m' ∧
    thread_arrays m' !! sample_threads = Some pool' ∧
    length pool' = length sample_pool ∧
    (∀ i t t', sample_pool !! i = Some t → pool' !! i = Some t' →
       contempt t' = search_contempt sample_machine (sample_board 1) ∧
       limits t' = 111 ∧ info t' = 222 ∧
       board t' = set_st (nnueStack t') (sample_board 1) ∧
       nnueStack t' = nnueStack t ∧ _nnueStack t' = _nnueStack t) ∧
    (frames_owned sample_pool →
     ∀ i j ti tj, i ≠ j → pool' !! i = Some ti → pool' !! j = Some tj →
       st (board ti) = addr__nnueStack (_nnueStack ti) STACK_OFFSET ∧
       st (board ti) ≠ st (board tj)).
Proof.
  exact (newSearchThreadPool_shares sample_machine sample_threads sample_pool
           (sample_board 1) 111 222 sample_pool_live sample_frames_live).
Defined.

(** The totals of the sample pool, whose threads counted 10, 0, 7 and 3
    nodes. *)
Example sample_totals :
  nodesSearchedThreadPool sample_threads sample_machine = Done 20 sample_machine ∧
  tbhitsThreadPool sample_threads sample_machine = Done 7 sample_machine.
Proof. split; by vm_compute. Qed.

(** Past [2^64] the total wraps: 10 + (2^64 - 5) + 7 + 3 is returned as 15. *)
Example wrapped_total :
  nodesSearchedThreadPool sample_threads busy_machine = Done 15 busy_machine.
Proof. by vm_compute. Qed.

(** The contempt of the sample machine for either side to move. *)
Example sample_contempt :
  ScoreMG (search_contempt sample_machine (sample_board 0)) = 25 ∧
  ScoreEG (search_contempt sample_machine (sample_board 0)) = 20 ∧
  ScoreMG (search_contempt sample_machine (sample_board 1)) = -25 ∧
  ScoreEG (search_contempt sample_machine (sample_board 1)) = -20.
Proof. by vm_compute. Qed.

(** ** The further properties at work on the samples *)

Lemma pool_stays_live_witness :
  (∃ m' pool',
     newSearchThreadPool sample_threads (sample_board 1) 111 222 sample_machine = Done tt m' ∧
     pool_live m' sample_threads pool' ∧ frames_live m' pool' ∧
     (frames_owned sample_pool → frames_owned pool')) ∧
  (∃ m' pool',
     resetThreadPool sample_threads sample_machine = Done tt m' ∧
     pool_live m' sample_threads pool' ∧ frames_live m' pool' ∧
     (frames_owned sample_pool → frames_owned pool')).
Proof.
  exact (pool_stays_live sample_machine sample_threads sample_pool (sample_board 1) 111 222
           sample_pool_live sample_frames_live).
Defined.

Lemma newSearchThreadPool_twice_witness :
  ∃ m', newSearchThreadPool sample_threads (sample_board 1) 111 222 sample_machine
          = Done tt m' ∧
        newSearchThreadPool sample_threads (sample_board 1) 111 222 m' = Done tt m'.
Proof.
  exact (newSearchThreadPool_twice sample_machine sample_threads sample_pool
           (sample_board 1) 111 222 sample_pool_live sample_frames_live).
Defined.

Lemma totals_zero_after_newSearch_witness :
  ∃ m', newSearchThreadPool sample_threads (sample_board 1) 111 222 sample_machine
          = Done tt m' ∧
        nodesSearchedThreadPool sample_threads m' = Done 0 m' ∧
        tbhitsThreadPool sample_threads m' = Done 0 m'.
Proof.
  exact (totals_zero_after_newSearch sample_machine sample_threads sample_pool
           (sample_board 1) 111 222 sample_pool_live sample_frames_live).
Defined.

Lemma resetThreadPool_frame_witness :
  ∃ m' pool',
    resetThreadPool sample_threads sample_machine = Done tt m' ∧
    thread_arrays m' !! sample_threads = Some pool' ∧
    (∀ i t t', sample_pool !! i = Some t → pool' !! i = Some t' →
       kept_by_reset t' = kept_by_reset t ∧ length <$> tables t' = length <$> tables t) ∧
    nnue_blocks m' = nnue_blocks sample_machine ∧
    (∀ p, p ≠ sample_threads → thread_arrays m' !! p = thread_arrays sample_machine !! p) ∧
    (∀ total, nodesSearchedThreadPool sample_threads sample_machine = Done total sample_machine →
              nodesSearchedThreadPool sample_threads m' = Done total m') ∧
    (∀ total, tbhitsThreadPool sample_threads sample_machine = Done total sample_machine →
              tbhitsThreadPool sample_threads m' = Done total m').
Proof.
  exact (resetThreadPool_frame sample_machine sample_threads sample_pool sample_pool_live).
Defined.

Lemma newSearchThreadPool_frame_witness :
  ∃ m' pool',
    newSearchThreadPool sample_threads (sample_board 1) 111 222 sample_machine = Done tt m' ∧
    thread_arrays m' !! sample_threads = Some pool' ∧
    (∀ i t t', sample_pool !! i = Some t → pool' !! i = Some t' →
       kept_by_search t' = kept_by_search t ∧
       ∃ frames frames',
         nnue_blocks sample_machine !! _nnueStack t = Some frames ∧
         nnue_blocks m' !! _nnueStack t = Some frames' ∧
         frame_data <$> frames' = frame_data <$> frames) ∧
    (∀ base, base ∉ _nnueStack <$> sample_pool →
             nnue_blocks m' !! base = nnue_blocks sample_machine !! base) ∧
    (∀ p, p ≠ sample_threads → thread_arrays m' !! p = thread_arrays sample_machine !! p).
Proof.
  exact (newSearchThreadPool_frame sample_machine sample_threads sample_pool
           (sample_board 1) 111 222 sample_pool_live sample_frames_live).
Defined.

Lemma reset_newSearch_commute_witness :
  ∃ m1 m2 m',
    resetThreadPool sample_threads sample_machine = Done tt m1 ∧
    newSearchThreadPool sample_threads (sample_board 1) 111 222 m1 = Done tt m' ∧
    newSearchThreadPool sample_threads (sample_board 1) 111 222 sample_machine = Done tt m2 ∧
    resetThreadPool sample_threads m2 = Done tt m'.
Proof.
  exact (reset_newSearch_commute sample_machine sample_threads sample_pool
           (sample_board 1) 111 222 sample_pool_live sample_frames_live).
Defined.

Lemma createThreadPool_identity_witness :
  ∃ m' pool,
    createThreadPool 4 (sample_boot 20 5) = Done sample_threads m' ∧
    thread_arrays m' !! sample_threads = Some pool ∧ Z.of_nat (length pool) = 4 ∧
    allocator m' = [1310720] ∧
    ∀ i t, pool !! i = Some t →
      index t = Z.of_nat i ∧ threads t = sample_threads ∧ nthreads t = 4 ∧
      _nnueStack t
        = alloc_result [262144; 524288; 786432; 1048576; 1310720] (Z.of_nat i) ∧
      nodes t = 0 ∧ tbhits t = 0 ∧ height t = 0 ∧
      Forall all_zero (tables t).
Proof.
  apply (createThreadPool_identity 4 65536
           [262144; 524288; 786432; 1048576; 1310720] (sample_boot 20 5));
    [lia|reflexivity|done|apply sample_blocks_served].
Defined.

Lemma fresh_pool_is_reset_witness :
  ∃ m',
    createThreadPool 4 (sample_boot 20 5) = Done sample_threads m' ∧
    nodesSearchedThreadPool sample_threads m' = Done 0 m' ∧
    tbhitsThreadPool sample_threads m' = Done 0 m' ∧
    resetThreadPool sample_threads m' = Done tt m'.
Proof.
  apply (fresh_pool_is_reset 4 65536
           [262144; 524288; 786432; 1048576; 1310720] (sample_boot 20 5));
    [lia|reflexivity|done|apply sample_blocks_served].
Defined.

Lemma create_delete_roundtrip_witness :
  ∃ m' m'',
    createThreadPool 4 (sample_boot 20 5) = Done sample_threads m' ∧
    deleteThreadPool sample_threads m' = Done tt m'' ∧
    thread_arrays m'' = thread_arrays (sample_boot 20 5) ∧
    nnue_blocks m'' = nnue_blocks (sample_boot 20 5) ∧
    allocator m'' = [1310720].
Proof.
  apply (create_delete_roundtrip 4 65536
           [262144; 524288; 786432; 1048576; 1310720] (sample_boot 20 5));
    [lia|reflexivity|done|reflexivity|cbn; lia|apply (bool_decide_unpack _); by vm_compute|].
  change (take (Z.to_nat 4) [262144; 524288; 786432; 1048576; 1310720])
    with [262144; 524288; 786432; 1048576].
  repeat (constructor;
          [split; [split; [done|apply aligned_layout; reflexivity]|split; reflexivity]|]).
  constructor.
Defined.

Lemma ethereal_alloc_free_witness :
  ∃ p m1 m2,
    ethereal_alloc 152064 64 (sample_boot 20 5) = Done p m1 ∧
    p = 65536 ∧
    (p ≠ NULL → nnue_blocks m1 !! p = Some (fresh_block (junk (sample_boot 20 5)) p 152064)) ∧
    (p = NULL → nnue_blocks m1 = nnue_blocks (sample_boot 20 5)) ∧
    ethereal_free p m1 = Done tt m2 ∧
    nnue_blocks m2 = nnue_blocks (sample_boot 20 5) ∧
    thread_arrays m2 = thread_arrays (sample_boot 20 5).
Proof.
  apply (ethereal_alloc_free 152064 64 (sample_boot 20 5)).
  intros base [= <-] _. split; reflexivity.
Defined.

Lemma starved_pool_live : pool_live starved_machine sample_threads starved_pool.
Proof. split; [by vm_compute|]. eexists. split; by vm_compute. Qed.

Lemma starved_pool_bases i t :
  starved_pool !! i = Some t →
  (i = 0%nat ∧ _nnueStack t = 262144) ∨ ((i = 1%nat ∨ i = 2%nat) ∧ _nnueStack t = NULL).
Proof.
  intros Ht. destruct i as [|[|[|i]]]; vm_compute in Ht; [| | |done];
    injection Ht as <-; [left|right..]; (split; [auto|reflexivity]).
Qed.

Lemma deleteThreadPool_releases_witness :
  ∃ m',
    deleteThreadPool sample_threads starved_machine = Done tt m' ∧
    thread_arrays m' !! sample_threads = None ∧
    (∀ p, p ≠ sample_threads → thread_arrays m' !! p = thread_arrays starved_machine !! p) ∧
    (∀ i t, starved_pool !! i = Some t → _nnueStack t ≠ NULL →
            nnue_blocks m' !! _nnueStack t = None) ∧
    (∀ base, base = NULL ∨ base ∉ _nnueStack <$> starved_pool →
             nnue_blocks m' !! base = nnue_blocks starved_machine !! base).
Proof.
  apply (deleteThreadPool_releases starved_machine sample_threads starved_pool
           starved_pool_live); [done| |].
  - intros i t [[_ Hb]|[_ Hb]]%starved_pool_bases; [right|by left].
    rewrite Hb. split; [reflexivity|]. eexists. by vm_compute.
  - intros i j ti tj [[-> Hi]|[_ Hi]]%starved_pool_bases
                     [[-> Hj]|[_ Hj]]%starved_pool_bases Hij Hne; try done.
    by rewrite Hi, Hj.
Defined.

Lemma newSearchThreadPool_needs_blocks_witness :
  newSearchThreadPool sample_threads (sample_board 0) 111 222 starved_machine = Fault.
Proof.
  apply (newSearchThreadPool_needs_blocks starved_machine sample_threads starved_pool
           (sample_board 0) 111 222 1 (default Thread_zero (starved_pool !! 1%nat))).
  - exact starved_pool_live.
  - done.
  - by vm_compute.
  - by vm_compute.
  - intros j tj Hj Htj. assert (j = 0%nat) as -> by lia.
    vm_compute in Htj. injection Htj as <-. eexists. split; by vm_compute.
Defined.

Lemma createThreadPool_ignores_failed_alloc_witness :
  ∃ m' pool t,
    createThreadPool 3 starved_boot = Done sample_threads m' ∧
    thread_arrays m' !! sample_threads = Some pool ∧
    pool !! 1%nat = Some t ∧ _nnueStack t = NULL ∧
    ∀ b lim inf, newSearchThreadPool sample_threads b lim inf m' = Fault.
Proof.
  apply (createThreadPool_ignores_failed_alloc 3 65536 [262144] starved_boot 1);
    [lia|reflexivity|done|reflexivity|reflexivity|reflexivity|done|done|cbn; lia
    |reflexivity| |].
  - intros j Hj. assert (j = 0 ∨ j = 1 ∨ j = 2) as [-> | [-> | ->]] by lia; reflexivity.
  - intros j Hj. assert (j = 0%nat) as -> by lia. done.
Defined.

Lemma createThreadPool_calloc_failure_witness : createThreadPool 2 dry_boot = Fault.
Proof. apply createThreadPool_calloc_failure; [lia|reflexivity|reflexivity]. Defined.

Lemma createThreadPool_empty_witness :
  ∃ p m',
    createThreadPool 0 (sample_boot 20 5) = Done p m' ∧
    nnue_blocks m' = nnue_blocks (sample_boot 20 5) ∧
    resetThreadPool p m' = Fault ∧
    (∀ b lim inf, newSearchThreadPool p b lim inf m' = Fault) ∧
    nodesSearchedThreadPool p m' = Fault ∧
    tbhitsThreadPool p m' = Fault ∧
    deleteThreadPool p m' = Fault.
Proof. apply createThreadPool_empty; [lia|reflexivity]. Defined.

Lemma file_size_builds_agree_witness :
  file_size POSIX 5 sample_os = Done 3 sample_os ∧
  file_size WIN32 5 sample_os = Done 3 sample_os.
Proof. apply (file_size_builds_agree 5 sample_os [10; 20; 30]); by vm_compute. Defined.

Lemma map_file_windows_leak_witness :
  ∃ s1,
    map_file WIN32 5 refusing_os = Done (NULL, 700) s1 ∧
    mapping_objects s1 !! 700 = Some [10; 20; 30] ∧
    views s1 = views refusing_os ∧
    unmap_file WIN32 NULL 700 s1 = Done tt s1.
Proof.
  apply (map_file_windows_leak 5 refusing_os [10; 20; 30]);
    [by vm_compute|done|by vm_compute|done|by vm_compute|by left].
Defined.
